(** * NPV.py: net present value of a drug launch

    A shallow embedding of [get_npv] from [NPV.py] and the properties its
    specification states about it.

    Modelling conventions.
    - A Python [float] / [np.float64] is a real number of [R]; the decimal
      literals of the source are the corresponding exact rationals.  Rounding,
      overflow and underflow of binary64 arithmetic are outside this reading:
      it describes the program up to rounding, and only while no intermediate
      value leaves the binary64 range.  Statements about finiteness therefore
      carry explicit parameter ranges ([sensible_ranges]), and the one
      statement that turns on rounding itself, the saturation of the logistic
      curve, is computed on binary64 floats ([B64]).
    - A division by zero in the discounting step (numpy yields [inf] or [nan]
      there, with a warning and no exception) is kept: the discounted cash
      flows and their sum live in [Np.float64], the reals with one extra
      non-finite value.
    - A one-dimensional [np.ndarray] is a [list R]; elementwise operators
      follow numpy's broadcasting rule for one-dimensional shapes and raise
      [ValueError] when the shapes are incompatible.
    - The three [int] parameters are integers of [Z]; [np.arange(0, n)] is
      empty for [n <= 0] and [np.zeros(n)] raises for [n < 0].  numpy refuses
      sizes outside its index range ([np.arange] raises below [-2^63]) and
      cannot allocate very long arrays; statements about which inputs raise
      carry the range of the integers they cover ([min_index],
      [ordinary_size]).
    - Exceptions are values of [Np.result]. *)

From Stdlib Require Import Reals Lra Lia List ZArith Bool.
From Stdlib Require Floats.
Import ListNotations.

Open Scope R_scope.

(** ** The fragment of numpy the program uses *)

Module Np.

(** The two [ValueError]s a one-dimensional numpy program of this shape can
    raise: a negative size handed to [np.zeros], and operands whose shapes
    [(n,)] and [(m,)] cannot be broadcast together. *)
Inductive exn : Type :=
| NegativeDimensions
| BroadcastMismatch (n m : nat).

Inductive result (A : Type) : Type :=
| Ok (a : A)
| Raise (e : exn).

Arguments Ok {A} a.
Arguments Raise {A} e.

Definition bind {A B : Type} (r : result A) (k : A -> result B) : result B :=
  match r with
  | Ok a => k a
  | Raise e => Raise e
  end.

Definition ndarray : Type := list R.

(** [np.arange(0, n)]: the indices [0 .. n-1], none when [n <= 0].  This is
    numpy's result for a stop value inside its index range; below [-2^63]
    numpy raises instead, which the statements exclude by hypothesis. *)
Definition arange (n : Z) : list nat := seq 0 (Z.to_nat n).

(** [np.zeros(n)] *)
Definition zeros (n : Z) : result ndarray :=
  if (n <? 0)%Z then Raise NegativeDimensions
  else Ok (repeat 0 (Z.to_nat n)).

(** [np.ones(n)] for a literal size. *)
Definition ones (n : nat) : ndarray := repeat 1 n.

(** scalar [op] array and array [op] scalar *)
Definition scalar_l (op : R -> R -> R) (c : R) (a : ndarray) : ndarray :=
  map (op c) a.

Definition scalar_r (op : R -> R -> R) (a : ndarray) (c : R) : ndarray :=
  map (fun x => op x c) a.

Fixpoint zip_with (op : R -> R -> R) (a b : ndarray) : ndarray :=
  match a, b with
  | x :: a', y :: b' => op x y :: zip_with op a' b'
  | _, _ => []
  end.

(** array [op] array.  Shapes [(n,)] and [(m,)] are compatible when they
    are equal or one of them is [1]; a length-1 operand is stretched along
    the other one. *)
Definition broadcast (op : R -> R -> R) (a b : ndarray) : result ndarray :=
  if (length a =? length b)%nat then Ok (zip_with op a b)
  else if (length a =? 1)%nat then Ok (map (op (hd 0 a)) b)
  else if (length b =? 1)%nat then Ok (map (fun x => op x (hd 0 b)) a)
  else Raise (BroadcastMismatch (length a) (length b)).

(** A float that may have left the finite numbers. *)
Inductive float64 : Type :=
| Finite (r : R)
| NonFinite.

(** [x / y] on [np.float64]: a zero divisor gives [inf] or [nan]. *)
Definition fdiv (x y : R) : float64 :=
  if Req_dec_T y 0 then NonFinite else Finite (x / y).

Definition fadd (x y : float64) : float64 :=
  match x, y with
  | Finite a, Finite b => Finite (a + b)
  | _, _ => NonFinite
  end.

(** [np.array(xs).sum()]; the empty sum is [0.0]. *)
Definition fsum (xs : list float64) : float64 :=
  fold_right fadd (Finite 0) xs.

End Np.

Import Np.

Notation "x <- e ;; k" := (bind e (fun x => k))
  (at level 61, e at next level, right associativity).

(** ** The parameters of [get_npv] *)

Record params : Type := mk_params {
  us_population : R;
  us_population_growth_rate : R;
  n_years : Z;
  get_flu_rate : R;
  max_penetration : R;
  patent_exclusive_years : Z;
  penetration_upon_patent_loss : R;
  inflection_year : R;
  hill_coefficient : R;
  lead_time_years : Z;
  rd_cost_scaler : R;
  clindev_sga : R;
  cost_of_revenue : R;
  cost_per_unit : R;
  discount_rate : R
}.

(** The default arguments of the signature. *)
Definition default_params : params := {|
  us_population := 335.5;
  us_population_growth_rate := 0.007;
  n_years := 30;
  get_flu_rate := 0.14;
  max_penetration := 0.5;
  patent_exclusive_years := 19;
  penetration_upon_patent_loss := 0.05;
  inflection_year := 1.5;
  hill_coefficient := 7;
  lead_time_years := 6;
  rd_cost_scaler := 1;
  clindev_sga := 0.5;
  cost_of_revenue := 0.49;
  cost_per_unit := 45;
  discount_rate := 0.35
|}.

(** Keyword-argument overrides used in the statements below. *)
Definition with_n_years (n : Z) (p : params) : params :=
  mk_params (us_population p) (us_population_growth_rate p) n
    (get_flu_rate p) (max_penetration p) (patent_exclusive_years p)
    (penetration_upon_patent_loss p) (inflection_year p) (hill_coefficient p)
    (lead_time_years p) (rd_cost_scaler p) (clindev_sga p) (cost_of_revenue p)
    (cost_per_unit p) (discount_rate p).

Definition with_cost_per_unit (c : R) (p : params) : params :=
  mk_params (us_population p) (us_population_growth_rate p) (n_years p)
    (get_flu_rate p) (max_penetration p) (patent_exclusive_years p)
    (penetration_upon_patent_loss p) (inflection_year p) (hill_coefficient p)
    (lead_time_years p) (rd_cost_scaler p) (clindev_sga p) (cost_of_revenue p)
    c (discount_rate p).

Definition with_rd_cost_scaler (s : R) (p : params) : params :=
  mk_params (us_population p) (us_population_growth_rate p) (n_years p)
    (get_flu_rate p) (max_penetration p) (patent_exclusive_years p)
    (penetration_upon_patent_loss p) (inflection_year p) (hill_coefficient p)
    (lead_time_years p) s (clindev_sga p) (cost_of_revenue p)
    (cost_per_unit p) (discount_rate p).

Definition with_discount_rate (d : R) (p : params) : params :=
  mk_params (us_population p) (us_population_growth_rate p) (n_years p)
    (get_flu_rate p) (max_penetration p) (patent_exclusive_years p)
    (penetration_upon_patent_loss p) (inflection_year p) (hill_coefficient p)
    (lead_time_years p) (rd_cost_scaler p) (clindev_sga p) (cost_of_revenue p)
    (cost_per_unit p) d.

Definition with_years (lead patent n : Z) (p : params) : params :=
  mk_params (us_population p) (us_population_growth_rate p) n
    (get_flu_rate p) (max_penetration p) patent
    (penetration_upon_patent_loss p) (inflection_year p) (hill_coefficient p)
    lead (rd_cost_scaler p) (clindev_sga p) (cost_of_revenue p)
    (cost_per_unit p) (discount_rate p).

Definition with_max_penetration (m : R) (p : params) : params :=
  mk_params (us_population p) (us_population_growth_rate p) (n_years p)
    (get_flu_rate p) m (patent_exclusive_years p)
    (penetration_upon_patent_loss p) (inflection_year p) (hill_coefficient p)
    (lead_time_years p) (rd_cost_scaler p) (clindev_sga p) (cost_of_revenue p)
    (cost_per_unit p) (discount_rate p).

Definition with_dev_costs (s sga : R) (p : params) : params :=
  mk_params (us_population p) (us_population_growth_rate p) (n_years p)
    (get_flu_rate p) (max_penetration p) (patent_exclusive_years p)
    (penetration_upon_patent_loss p) (inflection_year p) (hill_coefficient p)
    (lead_time_years p) s sga (cost_of_revenue p)
    (cost_per_unit p) (discount_rate p).

Definition with_get_flu_rate (f : R) (p : params) : params :=
  mk_params (us_population p) (us_population_growth_rate p) (n_years p)
    f (max_penetration p) (patent_exclusive_years p)
    (penetration_upon_patent_loss p) (inflection_year p) (hill_coefficient p)
    (lead_time_years p) (rd_cost_scaler p) (clindev_sga p) (cost_of_revenue p)
    (cost_per_unit p) (discount_rate p).

(** ** [get_npv], one definition per assignment of the source *)

Section GetNpv.

Variable p : params.

(** Market addressable *)
Definition population : ndarray :=
  scalar_l Rmult (us_population p)
    (map (fun i => (1 + us_population_growth_rate p) ^ i)
         (arange (n_years p))).

Definition n_flu : ndarray := scalar_l Rmult (get_flu_rate p) population.

(** Market penetration rate *)
Definition pre_approval : result ndarray := zeros (lead_time_years p).

Definition patent_effective : ndarray :=
  map (fun i =>
         max_penetration p /
         (1 + exp (-1 * hill_coefficient p * (INR i - inflection_year p))))
      (arange (patent_exclusive_years p)).

Definition post_patent : ndarray :=
  scalar_l Rmult (penetration_upon_patent_loss p) (ones 5).

Definition market_penetration : result ndarray :=
  pre <- pre_approval ;;
  Ok (pre ++ patent_effective ++ post_patent).

(** Number of patients per year *)
Definition n_patients_treated : result ndarray :=
  mp <- market_penetration ;;
  broadcast Rmult mp n_flu.

(** Non-revenue costs *)
Definition rd_costs_baseline : ndarray :=
  [3.515; 3.789; 8.2; 10.8; 23.796; 2.2].

Definition rd_costs : ndarray :=
  scalar_l Rmult (rd_cost_scaler p) rd_costs_baseline.

Definition dev_costs : ndarray := scalar_l Rplus (clindev_sga p) rd_costs.

Definition nr_costs : result ndarray :=
  z <- zeros 24 ;;
  Ok (dev_costs ++ z).

(** Revenue *)
Definition revenue : result ndarray :=
  pts <- n_patients_treated ;;
  Ok (scalar_r Rmult pts (cost_per_unit p)).

(** Revenue-associated costs *)
Definition r_costs : result ndarray :=
  rev <- revenue ;;
  Ok (scalar_r Rmult rev (cost_of_revenue p)).

(** Total costs *)
Definition costs : result ndarray :=
  rev_costs <- r_costs ;;
  nrc <- nr_costs ;;
  broadcast Rplus nrc rev_costs.

(** Net income *)
Definition net_income : result ndarray :=
  cs <- costs ;;
  rev <- revenue ;;
  broadcast Rminus rev cs.

(** Discounted cash flows: [zip] stops at the shorter of its arguments. *)
Definition discount (xs : ndarray) : list float64 :=
  map (fun xt => fdiv (fst xt) ((1 + discount_rate p) ^ snd xt))
      (combine xs (arange (n_years p))).

Definition dcfs : result (list float64) :=
  ni <- net_income ;;
  Ok (discount ni).

Definition get_npv : result float64 :=
  ds <- dcfs ;;
  Ok (fsum ds).

End GetNpv.

(** ** The formula of the specification

    Written from the specification's words, to be compared with [get_npv]. *)

Module Formula.

(** The three-regime piecewise curve, by year index. *)
Definition penetration (p : params) (i : nat) : R :=
  let lead := Z.to_nat (lead_time_years p) in
  let pat := Z.to_nat (patent_exclusive_years p) in
  if (i <? lead)%nat then 0
  else if (i <? lead + pat)%nat then
    max_penetration p /
    (1 + exp (- hill_coefficient p * (INR (i - lead) - inflection_year p)))
  else penetration_upon_patent_loss p.

Definition revenue (p : params) (i : nat) : R :=
  penetration p i * get_flu_rate p * us_population p
  * (1 + us_population_growth_rate p) ^ i * cost_per_unit p.

(** Six scaled baseline entries with SG&A added to each, then 24 zeros. *)
Definition nr_cost (p : params) (i : nat) : R :=
  nth i
    (map (fun b => rd_cost_scaler p * b + clindev_sga p)
         [3.515; 3.789; 8.2; 10.8; 23.796; 2.2]
     ++ repeat 0 24) 0.

(** The sum itself, in real arithmetic: it is defined when no divisor
    vanishes, that is for [discount_rate <> -1]. *)
Definition npv (p : params) : R :=
  fold_right Rplus 0
    (map (fun i =>
            (revenue p i * (1 - cost_of_revenue p) - nr_cost p i)
            / (1 + discount_rate p) ^ i)
         (seq 0 (Z.to_nat (n_years p)))).

End Formula.

(** ** Sums and present values of real sequences *)

Definition Rsum (xs : list R) : R := fold_right Rplus 0 xs.

(** Discounted sum at rate [d], over the years listed in [l], of a sequence
    given by year index; [pv] is the present value over the years
    [0 .. n-1]. *)
Definition dsum (d : R) (f : nat -> R) (l : list nat) : R :=
  Rsum (map (fun i => f i / (1 + d) ^ i) l).

Definition pv (d : R) (f : nat -> R) (n : nat) : R := dsum d f (seq 0 n).

(** ** Values of the intermediate arrays, by year index *)

(** The value of [market_penetration] when [np.zeros] accepts the lead time. *)
Definition penetration_array (p : params) : ndarray :=
  repeat 0 (Z.to_nat (lead_time_years p))
  ++ patent_effective p ++ post_patent p.

(** The value of [nr_costs]; it never raises. *)
Definition nr_costs_array (p : params) : ndarray :=
  dev_costs p ++ repeat 0 24.

(** The shape test that decides whether [get_npv] raises. *)
Definition shapes_ok (p : params) : bool :=
  (0 <=? lead_time_years p)%Z
  && (lead_time_years p + Z.max (patent_exclusive_years p) 0 + 5 =? 30)%Z
  && ((n_years p =? 30)%Z || (n_years p =? 1)%Z).

Definition n_flu_at (p : params) (i : nat) : R :=
  get_flu_rate p * (us_population p * (1 + us_population_growth_rate p) ^ i).

Definition n_patients_at (p : params) (i : nat) : R :=
  nth i (penetration_array p) 0 * n_flu_at p i.

Definition net_income_at (p : params) (i : nat) : R :=
  n_patients_at p i * cost_per_unit p
  - (nth i (nr_costs_array p) 0
     + n_patients_at p i * cost_per_unit p * cost_of_revenue p).

(** The lengths agree with each other and with the 30 cost entries. *)
Definition consistent (p : params) : Prop :=
  (0 <= lead_time_years p)%Z
  /\ length (penetration_array p) = 30%nat
  /\ Z.to_nat (n_years p) = 30%nat.

Definition logistic (p : params) (j : nat) : R :=
  max_penetration p /
  (1 + exp (-1 * hill_coefficient p * (INR j - inflection_year p))).

(** Entries of [nr_costs] and of [rd_costs] by year index ([0] past the
    end of the array). *)
Definition nr_cost_at (p : params) (i : nat) : R :=
  nth i (nr_costs_array p) 0.

Definition rd_cost_at (p : params) (i : nat) : R := nth i (rd_costs p) 0.

(** ** Ranges of the inputs

    The smallest stop value [np.arange] accepts, and the integers for which
    numpy neither refuses a size nor runs out of memory. *)
Definition min_index : Z := (- 2 ^ 63)%Z.

Definition ordinary_size (n : Z) : Prop := (min_index <= n <= 1000000)%Z.

(** Fractions in [[0, 1]], a growth rate in [(-1, 1]], a discount rate from
    [-0.99] up, magnitudes up to a million (in the source's units: millions
    of people, millions of USD, USD per dose).  Within these ranges no
    intermediate value of the binary64 computation overflows, and no power
    of [1 + discount_rate] underflows to zero. *)
Definition sensible_ranges (p : params) : Prop :=
  0 <= us_population p <= 1000000
  /\ -1 < us_population_growth_rate p <= 1
  /\ 0 <= get_flu_rate p <= 1
  /\ 0 <= max_penetration p <= 1
  /\ 0 <= penetration_upon_patent_loss p <= 1
  /\ 0 <= rd_cost_scaler p <= 1000000
  /\ 0 <= clindev_sga p <= 1000000
  /\ 0 <= cost_of_revenue p <= 1
  /\ 0 <= cost_per_unit p <= 1000000
  /\ -0.99 <= discount_rate p <= 1000000.

(** ** Line 52 on binary64 floats

    One entry of [patent_effective] with the operations of binary64:
    [exponent] is the argument handed to [np.exp], [entry] the quotient built
    from what [np.exp] returns. *)
Module B64.

Import PrimFloat.

Definition exponent (hill_coefficient inflection_year i : float) : float :=
  (-1 * hill_coefficient * (i - inflection_year))%float.

Definition entry (max_penetration exp_value : float) : float :=
  (max_penetration / (1 + exp_value))%float.

(** What [np.exp(-115.5)] returns, about [6.9e-51].  Its last bits do not
    matter: see [half_ulp_of_one]. *)
Definition exp_minus_115_5 : float := 0x1.4a8cafdce846ap-167%float.

(** The largest value of an exponential that [1 + _] still rounds to 1. *)
Definition half_ulp_of_one : float := 0x1p-53%float.

End B64.

(** ** The exception [get_npv] ends in, read off the three shapes

    [np.zeros] rejects a negative lead time first; then the penetration
    array meets the incidence array, and last the 30 non-revenue costs meet
    the revenue costs. *)
Definition raised_exception (p : params) : option exn :=
  let len_mp := (Z.to_nat (lead_time_years p)
                 + Z.to_nat (patent_exclusive_years p) + 5)%nat in
  let len_flu := Z.to_nat (n_years p) in
  if (lead_time_years p <? 0)%Z then Some NegativeDimensions
  else if negb (len_mp =? len_flu)%nat && negb (len_flu =? 1)%nat
       then Some (BroadcastMismatch len_mp len_flu)
  else if negb (len_mp =? 30)%nat then Some (BroadcastMismatch 30 len_mp)
  else None.

Definition with_cost_of_revenue (c : R) (p : params) : params :=
  mk_params (us_population p) (us_population_growth_rate p) (n_years p)
    (get_flu_rate p) (max_penetration p) (patent_exclusive_years p)
    (penetration_upon_patent_loss p) (inflection_year p) (hill_coefficient p)
    (lead_time_years p) (rd_cost_scaler p) (clindev_sga p) c
    (cost_per_unit p) (discount_rate p).

(** The six years in which development costs are paid. *)
Definition development_year (i : nat) : R := if (i <? 6)%nat then 1 else 0.

(** ** The numpy fragment on small inputs *)

Example broadcast_equal_shapes :
  broadcast Rplus [1; 2; 3] [10; 20; 30] = Ok [1 + 10; 2 + 20; 3 + 30].
Proof. reflexivity. Qed.

Example broadcast_stretches_length_one :
  broadcast Rmult [1; 2; 3] [10] = Ok [1 * 10; 2 * 10; 3 * 10]
  /\ broadcast Rmult [10] [1; 2; 3] = Ok [10 * 1; 10 * 2; 10 * 3].
Proof. split; reflexivity. Qed.

Example broadcast_rejects_other_shapes :
  broadcast Rplus [1; 2] [1; 2; 3] = Raise (BroadcastMismatch 2 3).
Proof. reflexivity. Qed.

Example zeros_rejects_negative_size :
  zeros (-1) = Raise NegativeDimensions /\ zeros 2 = Ok [0; 0].
Proof. split; reflexivity. Qed.

Example arange_of_non_positive : arange (-3) = [] /\ arange 3 = [0; 1; 2]%nat.
Proof. split; reflexivity. Qed.

Example default_shapes :
  length (n_flu default_params) = 30%nat
  /\ length (patent_effective default_params) = 19%nat
  /\ length (post_patent default_params) = 5%nat
  /\ shapes_ok default_params = true.
Proof. repeat split. Qed.

(** ** Arrays: lengths and entries *)

Lemma zip_with_length op a b :
  length (zip_with op a b) = Nat.min (length a) (length b).
Proof.
  revert b; induction a as [|x a IH]; intros [|y b]; simpl; auto.
Qed.

(** A list is the table of its entries. *)
Lemma list_as_table (a : ndarray) :
  a = map (fun i => nth i a 0) (seq 0 (length a)).
Proof.
  induction a as [|x a IH]; simpl; auto.
  f_equal. rewrite <- seq_shift, map_map. exact IH.
Qed.

Lemma zip_with_table op (f g : nat -> R) n :
  zip_with op (map f (seq 0 n)) (map g (seq 0 n))
  = map (fun i => op (f i) (g i)) (seq 0 n).
Proof.
  generalize 0%nat. induction n as [|n IH]; intros s; simpl; auto.
  f_equal. apply IH.
Qed.

Lemma combine_table (f : nat -> R) n :
  combine (map f (seq 0 n)) (seq 0 n) = map (fun i => (f i, i)) (seq 0 n).
Proof.
  generalize 0%nat. induction n as [|n IH]; intros s; simpl; auto.
  f_equal. apply IH.
Qed.

(** ** Broadcasting *)

Lemma broadcast_same op a b :
  length a = length b -> broadcast op a b = Ok (zip_with op a b).
Proof.
  intros H. unfold broadcast. rewrite H, Nat.eqb_refl. reflexivity.
Qed.

Lemma broadcast_stretch_r op a y :
  length a <> 1%nat ->
  broadcast op a [y] = Ok (map (fun x => op x y) a).
Proof.
  intros H. unfold broadcast. simpl.
  destruct (Nat.eqb_spec (length a) 1); [contradiction|]. reflexivity.
Qed.

Lemma broadcast_mismatch op a b :
  length a <> length b -> length a <> 1%nat -> length b <> 1%nat ->
  broadcast op a b = Raise (BroadcastMismatch (length a) (length b)).
Proof.
  intros H1 H2 H3. unfold broadcast.
  destruct (Nat.eqb_spec (length a) (length b)); [contradiction|].
  destruct (Nat.eqb_spec (length a) 1); [contradiction|].
  destruct (Nat.eqb_spec (length b) 1); [contradiction|]. reflexivity.
Qed.

Lemma broadcast_length op a b v :
  broadcast op a b = Ok v ->
  length v = if (length a =? 1)%nat then length b else length a.
Proof.
  unfold broadcast.
  destruct (Nat.eqb_spec (length a) (length b)) as [E|E].
  - intros [= <-]. rewrite zip_with_length, <- E, Nat.min_id.
    destruct (Nat.eqb_spec (length a) 1); congruence.
  - destruct (Nat.eqb_spec (length a) 1).
    + intros [= <-]. apply length_map.
    + destruct (Nat.eqb_spec (length b) 1); [|discriminate].
      intros [= <-]. apply length_map.
Qed.

Lemma broadcast_ok_compatible op a b v :
  broadcast op a b = Ok v ->
  length a = length b \/ length a = 1%nat \/ length b = 1%nat.
Proof.
  unfold broadcast.
  destruct (Nat.eqb_spec (length a) (length b)); auto.
  destruct (Nat.eqb_spec (length a) 1); auto.
  destruct (Nat.eqb_spec (length b) 1); auto. discriminate.
Qed.

(** ** The shapes of the intermediate arrays *)

Lemma market_penetration_ok p :
  (0 <= lead_time_years p)%Z ->
  market_penetration p = Ok (penetration_array p).
Proof.
  intros H. unfold market_penetration, pre_approval, zeros.
  destruct (Z.ltb_spec (lead_time_years p) 0); [lia|]. reflexivity.
Qed.

Lemma market_penetration_negative p :
  (lead_time_years p < 0)%Z ->
  market_penetration p = Raise NegativeDimensions.
Proof.
  intros H. unfold market_penetration, pre_approval, zeros.
  destruct (Z.ltb_spec (lead_time_years p) 0); [|lia]. reflexivity.
Qed.

Lemma patent_effective_length p :
  length (patent_effective p) = Z.to_nat (patent_exclusive_years p).
Proof. unfold patent_effective, arange. now rewrite length_map, length_seq. Qed.

Lemma penetration_array_length p :
  length (penetration_array p)
  = (Z.to_nat (lead_time_years p)
     + Z.to_nat (patent_exclusive_years p) + 5)%nat.
Proof.
  unfold penetration_array. rewrite !length_app, repeat_length.
  rewrite patent_effective_length. unfold post_patent, scalar_l, ones.
  rewrite length_map, repeat_length. lia.
Qed.

Lemma n_flu_length p : length (n_flu p) = Z.to_nat (n_years p).
Proof.
  unfold n_flu, population, scalar_l, arange.
  now rewrite !length_map, length_seq.
Qed.

Lemma nr_costs_ok p : nr_costs p = Ok (nr_costs_array p).
Proof. reflexivity. Qed.

Lemma nr_costs_array_length p : length (nr_costs_array p) = 30%nat.
Proof. reflexivity. Qed.

Lemma shapes_ok_spec p :
  shapes_ok p = true <->
  (0 <= lead_time_years p)%Z
  /\ length (penetration_array p) = 30%nat
  /\ (Z.to_nat (n_years p) = 30%nat \/ Z.to_nat (n_years p) = 1%nat).
Proof.
  unfold shapes_ok. rewrite !andb_true_iff, orb_true_iff.
  rewrite Z.leb_le, !Z.eqb_eq, penetration_array_length. lia.
Qed.

Lemma n_patients_treated_length p v :
  n_patients_treated p = Ok v ->
  (0 <= lead_time_years p)%Z
  /\ length v = length (penetration_array p)
  /\ (length (penetration_array p) = Z.to_nat (n_years p)
      \/ Z.to_nat (n_years p) = 1%nat).
Proof.
  unfold n_patients_treated.
  destruct (Z.lt_ge_cases (lead_time_years p) 0) as [Hneg|Hpos].
  - rewrite market_penetration_negative by assumption. discriminate.
  - rewrite market_penetration_ok by assumption. cbn [bind]. intros H.
    pose proof (penetration_array_length p) as HL.
    pose proof (broadcast_length _ _ _ _ H) as Hlen.
    pose proof (broadcast_ok_compatible _ _ _ _ H) as Hc.
    rewrite n_flu_length in *.
    destruct (Nat.eqb_spec (length (penetration_array p)) 1); [lia|].
    repeat split; auto. lia.
Qed.

Lemma n_patients_treated_ok p :
  (0 <= lead_time_years p)%Z ->
  length (penetration_array p) = Z.to_nat (n_years p)
  \/ Z.to_nat (n_years p) = 1%nat ->
  exists v, n_patients_treated p = Ok v.
Proof.
  intros Hlead Hn. unfold n_patients_treated.
  rewrite market_penetration_ok by assumption. cbn [bind].
  unfold broadcast. rewrite n_flu_length.
  destruct (Nat.eqb_spec (length (penetration_array p)) (Z.to_nat (n_years p)));
    [eauto|].
  destruct (Nat.eqb_spec (length (penetration_array p)) 1); [eauto|].
  destruct (Nat.eqb_spec (Z.to_nat (n_years p)) 1); [eauto|]. lia.
Qed.

Lemma revenue_length p v :
  revenue p = Ok v ->
  exists pts, n_patients_treated p = Ok pts /\ length v = length pts.
Proof.
  unfold revenue. destruct (n_patients_treated p) as [pts|e]; [|discriminate].
  cbn [bind]. intros [= <-]. exists pts. split; auto.
  unfold scalar_r. now rewrite length_map.
Qed.

Lemma r_costs_length p v :
  r_costs p = Ok v ->
  exists rev, revenue p = Ok rev /\ length v = length rev.
Proof.
  unfold r_costs. destruct (revenue p) as [rev|e]; [|discriminate].
  cbn [bind]. intros [= <-]. exists rev. split; auto.
  unfold scalar_r. now rewrite length_map.
Qed.

Lemma costs_length p v :
  costs p = Ok v ->
  exists rc, r_costs p = Ok rc /\ length rc = 30%nat /\ length v = 30%nat.
Proof.
  unfold costs. destruct (r_costs p) as [rc|e] eqn:Hrc; [|discriminate].
  cbn [bind]. rewrite nr_costs_ok. cbn [bind]. intros H. exists rc.
  destruct (r_costs_length _ _ Hrc) as (rev & Hrev & Lrc).
  destruct (revenue_length _ _ Hrev) as (pts & Hpts & Lrev).
  destruct (n_patients_treated_length _ _ Hpts) as (_ & Lpts & _).
  pose proof (penetration_array_length p) as HL.
  pose proof (broadcast_length _ _ _ _ H) as Hlen.
  pose proof (broadcast_ok_compatible _ _ _ _ H) as Hc.
  rewrite nr_costs_array_length in *. cbn in Hlen. split; auto. split; lia.
Qed.

Lemma net_income_ok_inv p v :
  net_income p = Ok v -> shapes_ok p = true /\ length v = 30%nat.
Proof.
  unfold net_income. destruct (costs p) as [cs|e] eqn:Hcs; [|discriminate].
  cbn [bind]. destruct (revenue p) as [rev|e] eqn:Hrev; [|discriminate].
  cbn [bind]. intros H.
  destruct (costs_length _ _ Hcs) as (rc & Hrc & Lrc & Lcs).
  destruct (r_costs_length _ _ Hrc) as (rev' & Hrev' & Lrc').
  rewrite Hrev in Hrev'. injection Hrev' as <-.
  destruct (revenue_length _ _ Hrev) as (pts & Hpts & Lrev).
  destruct (n_patients_treated_length _ _ Hpts) as (Hlead & Lpts & Hn).
  pose proof (broadcast_length _ _ _ _ H) as Hlen.
  split.
  - apply shapes_ok_spec. repeat split; auto; lia.
  - destruct (Nat.eqb_spec (length rev) 1); lia.
Qed.

Lemma net_income_ok p :
  shapes_ok p = true -> exists v, net_income p = Ok v.
Proof.
  intros H. apply shapes_ok_spec in H. destruct H as (Hlead & HL & Hn).
  destruct (n_patients_treated_ok p Hlead) as [pts Hpts]; [lia|].
  destruct (n_patients_treated_length _ _ Hpts) as (_ & Lpts & _).
  unfold net_income, costs, r_costs, revenue. rewrite Hpts. cbn [bind].
  rewrite nr_costs_ok. cbn [bind].
  rewrite broadcast_same
    by (unfold scalar_r; rewrite !length_map, nr_costs_array_length; lia).
  cbn [bind]. rewrite broadcast_same; [eauto|].
  unfold scalar_r.
  rewrite zip_with_length, !length_map, nr_costs_array_length. lia.
Qed.

Lemma get_npv_ok_iff p :
  (exists v, get_npv p = Ok v) <-> shapes_ok p = true.
Proof.
  unfold get_npv, dcfs. split.
  - intros [v H]. destruct (net_income p) as [ni|e] eqn:Hni; [|discriminate].
    now apply net_income_ok_inv in Hni.
  - intros H. destruct (net_income_ok p H) as [ni ->]. cbn [bind]. eauto.
Qed.

(** ** The arrays by year index, for consistent shapes *)

Lemma consistent_intro p :
  (0 <= lead_time_years p)%Z -> (0 <= patent_exclusive_years p)%Z ->
  (lead_time_years p + patent_exclusive_years p + 5 = n_years p)%Z ->
  n_years p = 30%Z ->
  consistent p.
Proof.
  intros H1 H2 H3 H4. unfold consistent.
  rewrite penetration_array_length. lia.
Qed.

Lemma n_flu_table p :
  n_flu p = map (n_flu_at p) (seq 0 (Z.to_nat (n_years p))).
Proof.
  unfold n_flu, population, scalar_l, arange. now rewrite !map_map.
Qed.

Lemma n_patients_treated_closed p :
  consistent p ->
  n_patients_treated p = Ok (map (n_patients_at p) (seq 0 30)).
Proof.
  intros (Hlead & HL & Hn). unfold n_patients_treated.
  rewrite market_penetration_ok by assumption. cbn [bind].
  rewrite broadcast_same by (rewrite n_flu_length; lia).
  rewrite n_flu_table, Hn.
  rewrite (list_as_table (penetration_array p)) at 1. rewrite HL.
  now rewrite zip_with_table.
Qed.

Lemma nr_costs_array_table p :
  nr_costs_array p = map (fun i => nth i (nr_costs_array p) 0) (seq 0 30).
Proof. exact (list_as_table (nr_costs_array p)). Qed.

Lemma net_income_closed p :
  consistent p ->
  net_income p = Ok (map (net_income_at p) (seq 0 30)).
Proof.
  intros Hc. unfold net_income, costs, r_costs, revenue.
  rewrite (n_patients_treated_closed p Hc). cbn [bind].
  rewrite nr_costs_ok. cbn [bind]. unfold scalar_r. rewrite !map_map.
  rewrite nr_costs_array_table.
  rewrite broadcast_same by now rewrite !length_map.
  rewrite zip_with_table. cbn [bind].
  rewrite broadcast_same by now rewrite !length_map.
  now rewrite zip_with_table.
Qed.

Lemma discount_table p f :
  Z.to_nat (n_years p) = 30%nat ->
  discount p (map f (seq 0 30))
  = map (fun i => fdiv (f i) ((1 + discount_rate p) ^ i)) (seq 0 30).
Proof.
  intros Hn. unfold discount, arange. rewrite Hn, combine_table.
  now rewrite map_map.
Qed.

Lemma get_npv_closed p :
  consistent p ->
  get_npv p
  = Ok (fsum (map (fun i => fdiv (net_income_at p i)
                                 ((1 + discount_rate p) ^ i)) (seq 0 30))).
Proof.
  intros Hc. unfold get_npv, dcfs. rewrite (net_income_closed p Hc).
  cbn [bind]. rewrite discount_table by apply Hc. reflexivity.
Qed.

(** Away from [discount_rate = -1] no divisor vanishes. *)
Lemma fdiv_finite x y : y <> 0 -> fdiv x y = Finite (x / y).
Proof. intros H. unfold fdiv. destruct (Req_dec_T y 0); tauto. Qed.

Lemma fdiv_zero x : fdiv x 0 = NonFinite.
Proof. unfold fdiv. destruct (Req_dec_T 0 0); tauto. Qed.

Lemma fsum_discounted d (f : nat -> R) l :
  1 + d <> 0 ->
  fsum (map (fun i => fdiv (f i) ((1 + d) ^ i)) l)
  = Finite (Rsum (map (fun i => f i / (1 + d) ^ i) l)).
Proof.
  intros Hd. induction l as [|i l IH]; [reflexivity|].
  cbn [map fsum fold_right Rsum]. fold (fsum (map (fun i => fdiv (f i) ((1 + d) ^ i)) l)).
  rewrite IH, fdiv_finite by now apply pow_nonzero. reflexivity.
Qed.

Lemma get_npv_finite p :
  consistent p -> 1 + discount_rate p <> 0 ->
  get_npv p = Ok (Finite (pv (discount_rate p) (net_income_at p) 30)).
Proof.
  intros Hc Hd. rewrite (get_npv_closed p Hc).
  now rewrite fsum_discounted.
Qed.

(** At [discount_rate = -1] every later year is divided by zero and the
    sum is no longer finite; no exception is raised. *)
Lemma fsum_nonfinite xs : In NonFinite xs -> fsum xs = NonFinite.
Proof.
  induction xs as [|x xs IH]; [contradiction|].
  intros [-> | H]; [reflexivity|].
  cbn [fsum fold_right]. fold (fsum xs). rewrite IH by assumption.
  now destruct x.
Qed.

Lemma get_npv_nonfinite p :
  consistent p -> discount_rate p = -1 -> get_npv p = Ok NonFinite.
Proof.
  intros Hc Hd. rewrite (get_npv_closed p Hc). f_equal.
  apply fsum_nonfinite. apply in_map_iff. exists 1%nat. split.
  - rewrite Hd. replace ((1 + -1) ^ 1) with 0 by (cbn; ring).
    apply fdiv_zero.
  - apply in_seq. lia.
Qed.

(** ** Entries of the penetration curve *)

Lemma patent_effective_nth p j :
  (j < Z.to_nat (patent_exclusive_years p))%nat ->
  nth j (patent_effective p) 0 = logistic p j.
Proof.
  intros Hj. unfold patent_effective, arange.
  rewrite (nth_indep _ 0 (logistic p 0))
    by now rewrite length_map, length_seq.
  change (logistic p 0) with ((fun i => logistic p i) 0%nat).
  rewrite map_nth, seq_nth by assumption. reflexivity.
Qed.

Lemma post_patent_nth p k :
  (k < 5)%nat -> nth k (post_patent p) 0 = penetration_upon_patent_loss p.
Proof.
  intros Hk. unfold post_patent, scalar_l, ones.
  do 5 (destruct k as [|k]; [cbn; ring|]). lia.
Qed.

Lemma penetration_array_pre p i :
  (i < Z.to_nat (lead_time_years p))%nat ->
  nth i (penetration_array p) 0 = 0.
Proof.
  intros Hi. unfold penetration_array.
  rewrite app_nth1 by now rewrite repeat_length.
  apply nth_repeat.
Qed.

Lemma penetration_array_patent p j :
  (j < Z.to_nat (patent_exclusive_years p))%nat ->
  nth (Z.to_nat (lead_time_years p) + j) (penetration_array p) 0
  = logistic p j.
Proof.
  intros Hj. unfold penetration_array.
  rewrite app_nth2 by (rewrite repeat_length; lia).
  rewrite repeat_length.
  replace (Z.to_nat (lead_time_years p) + j - Z.to_nat (lead_time_years p))%nat
    with j by lia.
  rewrite app_nth1 by now rewrite patent_effective_length.
  now apply patent_effective_nth.
Qed.

Lemma penetration_array_post p k :
  (k < 5)%nat ->
  nth (Z.to_nat (lead_time_years p)
       + Z.to_nat (patent_exclusive_years p) + k) (penetration_array p) 0
  = penetration_upon_patent_loss p.
Proof.
  intros Hk. unfold penetration_array.
  rewrite app_nth2 by (rewrite repeat_length; lia).
  rewrite repeat_length.
  rewrite app_nth2 by (rewrite patent_effective_length; lia).
  rewrite patent_effective_length.
  replace (Z.to_nat (lead_time_years p) + Z.to_nat (patent_exclusive_years p)
           + k - Z.to_nat (lead_time_years p)
           - Z.to_nat (patent_exclusive_years p))%nat with k by lia.
  now apply post_patent_nth.
Qed.

Lemma penetration_array_formula p i :
  nth i (penetration_array p) 0 = Formula.penetration p i
  \/ (length (penetration_array p) <= i)%nat.
Proof.
  unfold Formula.penetration. cbv zeta.
  set (lead := Z.to_nat (lead_time_years p)).
  set (pat := Z.to_nat (patent_exclusive_years p)).
  destruct (Nat.ltb_spec i lead) as [H1|H1].
  - left. now apply penetration_array_pre.
  - destruct (Nat.ltb_spec i (lead + pat)) as [H2|H2].
    + left. replace i with (lead + (i - lead))%nat at 1 by lia.
      unfold lead at 1. rewrite penetration_array_patent by (fold lead pat; lia).
      unfold logistic. fold lead. do 3 f_equal. ring.
    + destruct (Nat.lt_ge_cases i (lead + pat + 5)) as [H3|H3].
      * left. replace i with (lead + pat + (i - lead - pat))%nat by lia.
        apply penetration_array_post. lia.
      * right. rewrite penetration_array_length. fold lead pat. lia.
Qed.

Lemma nr_costs_array_formula p i :
  nth i (nr_costs_array p) 0 = Formula.nr_cost p i.
Proof.
  unfold Formula.nr_cost, nr_costs_array, dev_costs, rd_costs,
    rd_costs_baseline, scalar_l.
  do 6 (destruct i as [|i]; [cbn; ring|]).
  reflexivity.
Qed.

Lemma net_income_at_formula p i :
  consistent p -> (i < 30)%nat ->
  net_income_at p i
  = Formula.revenue p i * (1 - cost_of_revenue p) - Formula.nr_cost p i.
Proof.
  intros (_ & HL & _) Hi.
  unfold net_income_at, n_patients_at, n_flu_at, Formula.revenue.
  rewrite nr_costs_array_formula.
  destruct (penetration_array_formula p i) as [-> | Hout]; [ring | lia].
Qed.

(** ** C1: [get_npv] computes the specification's sum *)

(** C1.  For non-negative [lead_time_years] and [patent_exclusive_years] with
    [lead_time_years + patent_exclusive_years + 5 = n_years = 30], [get_npv]
    returns the sum over the years [i = 0 .. n_years-1] of
    [(revenue i * (1 - cost_of_revenue) - nr_cost i) / (1 + discount_rate)^i],
    with the revenue, the three-regime penetration curve and the non-revenue
    costs of [Formula]: the real sum [Formula.npv] of real quotients.  At
    [discount_rate = -1], where the terms of the sum divide by zero, the
    value returned is not finite. *)
Theorem get_npv_formula p :
  (0 <= lead_time_years p)%Z ->
  (0 <= patent_exclusive_years p)%Z ->
  (lead_time_years p + patent_exclusive_years p + 5 = n_years p)%Z ->
  n_years p = 30%Z ->
  (discount_rate p <> -1 -> get_npv p = Ok (Finite (Formula.npv p)))
  /\ (discount_rate p = -1 -> get_npv p = Ok NonFinite).
Proof.
  intros H1 H2 H3 H4.
  pose proof (consistent_intro p H1 H2 H3 H4) as Hc.
  split; [|now apply get_npv_nonfinite].
  intros Hd. rewrite get_npv_finite; [|exact Hc|intros H; apply Hd; lra].
  unfold Formula.npv, pv, dsum, Rsum.
  replace (Z.to_nat (n_years p)) with 30%nat by lia.
  do 3 f_equal. apply map_ext_in. intros i Hi. apply in_seq in Hi.
  rewrite net_income_at_formula by (auto; lia). reflexivity.
Qed.

Lemma get_npv_formula_witness :
  get_npv default_params = Ok (Finite (Formula.npv default_params)).
Proof.
  apply (get_npv_formula default_params); cbn; try lia. lra.
Defined.

(** ** When [get_npv] raises *)

Lemma n_patients_treated_mismatch p :
  (0 <= lead_time_years p)%Z ->
  length (penetration_array p) <> Z.to_nat (n_years p) ->
  Z.to_nat (n_years p) <> 1%nat ->
  n_patients_treated p
  = Raise (BroadcastMismatch (length (penetration_array p))
                             (Z.to_nat (n_years p))).
Proof.
  intros Hlead Hne H1. unfold n_patients_treated.
  rewrite market_penetration_ok by assumption. cbn [bind].
  pose proof (penetration_array_length p) as HL.
  rewrite broadcast_mismatch; rewrite ?n_flu_length; auto; lia.
Qed.

Lemma get_npv_patients_mismatch p :
  (0 <= lead_time_years p)%Z ->
  length (penetration_array p) <> Z.to_nat (n_years p) ->
  Z.to_nat (n_years p) <> 1%nat ->
  get_npv p
  = Raise (BroadcastMismatch (length (penetration_array p))
                             (Z.to_nat (n_years p))).
Proof.
  intros Hlead Hne H1.
  unfold get_npv, dcfs, net_income, costs, r_costs, revenue.
  now rewrite n_patients_treated_mismatch.
Qed.

Lemma get_npv_costs_mismatch p :
  (0 <= lead_time_years p)%Z ->
  length (penetration_array p) = Z.to_nat (n_years p)
  \/ Z.to_nat (n_years p) = 1%nat ->
  length (penetration_array p) <> 30%nat ->
  get_npv p
  = Raise (BroadcastMismatch 30 (length (penetration_array p))).
Proof.
  intros Hlead Hn H30.
  destruct (n_patients_treated_ok p Hlead Hn) as [pts Hpts].
  destruct (n_patients_treated_length _ _ Hpts) as (_ & Lpts & _).
  pose proof (penetration_array_length p) as HL.
  unfold get_npv, dcfs, net_income, costs, r_costs, revenue.
  rewrite Hpts. cbn [bind]. rewrite nr_costs_ok. cbn [bind].
  rewrite broadcast_mismatch; unfold scalar_r;
    rewrite ?length_map, ?nr_costs_array_length; try lia.
  cbn [bind]. now rewrite Lpts.
Qed.

(** ** C2: consistent lengths *)

(** C2, as stated, fails: with [lead_time_years = 6],
    [patent_exclusive_years = 9] and [n_years = 20 = 6 + 9 + 5] (every other
    parameter at its default, so [discount_rate = 0.35 > -1]) the sum of the
    30 non-revenue costs and the 20 revenue costs raises. *)
Lemma get_npv_raises_at_20_years :
  let p := with_years 6 9 20 default_params in
  (n_years p = lead_time_years p + patent_exclusive_years p + 5)%Z
  /\ -1 < discount_rate p
  /\ get_npv p = Raise (BroadcastMismatch 30 20)
  /\ ~ (exists v, get_npv p = Ok (Finite v)).
Proof.
  intros p.
  assert (H : get_npv p = Raise (BroadcastMismatch 30 20)).
  { assert (HL : length (penetration_array p) = 20%nat)
      by (rewrite penetration_array_length; reflexivity).
    rewrite <- HL at 2. apply get_npv_costs_mismatch.
    - cbn; lia.
    - left. rewrite HL. reflexivity.
    - rewrite HL. lia. }
  split; [reflexivity|]. split; [cbn; lra|]. split; [exact H|].
  intros [v Hv]. rewrite H in Hv. discriminate.
Qed.

(** C2, amended.  For non-negative [lead_time_years] and
    [patent_exclusive_years] with
    [n_years = lead_time_years + patent_exclusive_years + 5]: when that sum
    is 30 and the real parameters lie in the sensible ranges of
    [sensible_ranges] (fractions in [[0, 1]], growth rate in [(-1, 1]],
    discount rate at least [-0.99], magnitudes up to a million), [get_npv]
    raises nothing and returns a finite value; when the sum differs from 30
    (and is at most a million), [get_npv] raises the broadcast [ValueError]
    of shapes [(30,)] and [(n_years,)]. *)
Theorem get_npv_finite_iff_30_years p :
  (0 <= lead_time_years p)%Z ->
  (0 <= patent_exclusive_years p)%Z ->
  (n_years p = lead_time_years p + patent_exclusive_years p + 5)%Z ->
  (n_years p = 30%Z -> sensible_ranges p ->
   exists v, get_npv p = Ok (Finite v))
  /\ (n_years p <> 30%Z -> (n_years p <= 1000000)%Z ->
      get_npv p = Raise (BroadcastMismatch 30 (Z.to_nat (n_years p)))).
Proof.
  intros H1 H2 H3.
  pose proof (penetration_array_length p) as HL.
  split.
  - intros Hn Hs. eexists. apply get_npv_finite.
    + apply consistent_intro; auto; lia.
    + unfold sensible_ranges in Hs. lra.
  - intros Hn _.
    replace (Z.to_nat (n_years p)) with (length (penetration_array p)) by lia.
    apply get_npv_costs_mismatch; auto; lia.
Qed.

Lemma get_npv_finite_iff_30_years_witness :
  (exists v, get_npv default_params = Ok (Finite v))
  /\ get_npv (with_years 6 9 20 default_params)
     = Raise (BroadcastMismatch 30 20).
Proof.
  split.
  - apply (get_npv_finite_iff_30_years default_params);
      try (cbn; lia).
    unfold sensible_ranges. cbn. lra.
  - apply (get_npv_finite_iff_30_years (with_years 6 9 20 default_params));
      cbn; lia.
Defined.

(** ** C3: arbitrary numeric input *)

(** C3, as stated, fails: the defaults with [n_years = 10] multiply a
    30-entry penetration array by a 10-entry incidence array. *)
Lemma get_npv_raises_at_n_years_10 :
  get_npv (with_n_years 10 default_params) = Raise (BroadcastMismatch 30 10)
  /\ ~ (exists v, get_npv (with_n_years 10 default_params) = Ok v).
Proof.
  assert (H : get_npv (with_n_years 10 default_params)
              = Raise (BroadcastMismatch 30 10)).
  { assert (HL : length (penetration_array (with_n_years 10 default_params))
                 = 30%nat)
      by (rewrite penetration_array_length; reflexivity).
    rewrite <- HL. apply get_npv_patients_mismatch.
    - cbn; lia.
    - rewrite HL. cbn. lia.
    - cbn. lia. }
  split; [exact H|]. intros [v Hv]. rewrite H in Hv. discriminate.
Qed.

(** C3, amended.  For integer inputs with
    [patent_exclusive_years >= -2^63] (below that [np.arange] itself
    raises), [get_npv] raises no exception exactly when
    [lead_time_years >= 0],
    [lead_time_years + max(patent_exclusive_years, 0) + 5 = 30] and [n_years]
    is 30 or 1; it then returns a float (possibly a non-finite one).  For
    every other such input it raises an exception. *)
Theorem get_npv_returns_or_raises p :
  (min_index <= patent_exclusive_years p)%Z ->
  if shapes_ok p then exists v, get_npv p = Ok v
  else exists e, get_npv p = Raise e.
Proof.
  intros _. destruct (shapes_ok p) eqn:Hs.
  - now apply get_npv_ok_iff.
  - destruct (get_npv p) as [v|e] eqn:Hg; [|eauto].
    assert (shapes_ok p = true) by (apply get_npv_ok_iff; eauto).
    congruence.
Qed.

Lemma get_npv_returns_or_raises_witness :
  (exists v, get_npv default_params = Ok v)
  /\ (exists e, get_npv (with_years (-1) 19 30 default_params) = Raise e).
Proof.
  split.
  - apply (get_npv_returns_or_raises default_params).
    unfold min_index. cbn. lia.
  - apply (get_npv_returns_or_raises (with_years (-1) 19 30 default_params)).
    unfold min_index. cbn. lia.
Defined.

(** ** C4: regime boundaries of the penetration curve *)

Lemma logistic_first p :
  logistic p 0
  = max_penetration p / (1 + exp (hill_coefficient p * inflection_year p)).
Proof. unfold logistic. cbn [INR]. do 3 f_equal. ring. Qed.

(** C4, as stated, fails when there is no patent-exclusive year: with
    [lead_time_years = 25], [patent_exclusive_years = 0] and [n_years = 30]
    the entry at index [lead_time_years] is already the post-patent value
    [0.05], not the logistic value [0.5 / (1 + exp (7 * 1.5))]. *)
Lemma market_penetration_without_patent_years :
  let p := with_years 25 0 30 default_params in
  (1 <= lead_time_years p)%Z
  /\ (lead_time_years p + patent_exclusive_years p + 5 = n_years p)%Z
  /\ exists mp,
       market_penetration p = Ok mp
       /\ nth (Z.to_nat (lead_time_years p)) mp 0
          <> max_penetration p
             / (1 + exp (hill_coefficient p * inflection_year p)).
Proof.
  intros p. split; [cbn; lia|]. split; [reflexivity|].
  exists (penetration_array p). split.
  - apply market_penetration_ok. cbn; lia.
  - assert (H : nth 25 (penetration_array p) 0 = 0.05)
      by (apply (penetration_array_post p 0); lia).
    change (Z.to_nat (lead_time_years p)) with 25%nat.
    rewrite H. cbn.
    pose proof (exp_ineq1 (7 * 1.5)) as He.
    assert (Hlt : 1 + 7 * 1.5 < exp (7 * 1.5)) by (apply He; lra).
    intros Heq.
    assert (Hpos : 0 < 1 + exp (7 * 1.5)) by lra.
    apply (f_equal (fun x => x * (1 + exp (7 * 1.5)))) in Heq.
    unfold Rdiv in Heq. rewrite Rmult_assoc in Heq.
    rewrite Rinv_l in Heq by lra. lra.
Qed.

(** C4, amended.  For [lead_time_years >= 1] and a non-negative
    [patent_exclusive_years] (whatever [n_years] is), the penetration array
    built inside [get_npv] has the entry 0 at index [lead_time_years - 1]
    and the entry [penetration_upon_patent_loss] at index
    [lead_time_years + patent_exclusive_years]; when moreover
    [patent_exclusive_years >= 1], its entry at index [lead_time_years] is
    [max_penetration / (1 + exp (hill_coefficient * inflection_year))]. *)
Theorem market_penetration_boundaries p :
  (1 <= lead_time_years p)%Z ->
  (0 <= patent_exclusive_years p)%Z ->
  exists mp,
    market_penetration p = Ok mp
    /\ nth (Z.to_nat (lead_time_years p - 1)) mp 0 = 0
    /\ ((1 <= patent_exclusive_years p)%Z ->
        nth (Z.to_nat (lead_time_years p)) mp 0
        = max_penetration p
          / (1 + exp (hill_coefficient p * inflection_year p)))
    /\ nth (Z.to_nat (lead_time_years p + patent_exclusive_years p)) mp 0
       = penetration_upon_patent_loss p.
Proof.
  intros Hlead Hpat. exists (penetration_array p).
  split; [apply market_penetration_ok; lia|]. split; [|split].
  - apply penetration_array_pre. lia.
  - intros Hpat1. rewrite <- logistic_first.
    rewrite <- (penetration_array_patent p 0) by lia.
    f_equal. lia.
  - rewrite <- (penetration_array_post p 0) by lia.
    f_equal. lia.
Qed.

Lemma market_penetration_boundaries_witness :
  exists mp,
    market_penetration default_params = Ok mp
    /\ nth 5 mp 0 = 0
    /\ nth 6 mp 0 = 0.5 / (1 + exp (7 * 1.5))
    /\ nth 25 mp 0 = 0.05.
Proof.
  destruct (market_penetration_boundaries default_params)
    as (mp & Hmp & H5 & H6 & H25); [cbn; lia | cbn; lia |].
  exists mp. split; [exact Hmp|]. split; [exact H5|].
  split; [apply H6; cbn; lia | exact H25].
Defined.

(** ** Discounted sums *)

Section Dsum.

Variable d : R.

Lemma dsum_cons f i l :
  dsum d f (i :: l) = f i / (1 + d) ^ i + dsum d f l.
Proof. reflexivity. Qed.

Lemma dsum_ext f g l :
  (forall i, In i l -> f i = g i) -> dsum d f l = dsum d g l.
Proof.
  intros H. unfold dsum. f_equal. apply map_ext_in.
  intros i Hi. now rewrite H.
Qed.

Lemma dsum_linear a f g l :
  dsum d (fun i => a * f i - g i) l = a * dsum d f l - dsum d g l.
Proof.
  induction l as [|i l IH]; [unfold dsum; cbn; ring|].
  rewrite !dsum_cons, IH. unfold Rdiv. ring.
Qed.

Hypothesis Hd : 0 < 1 + d.

Lemma discount_factor_pos i : 0 < / (1 + d) ^ i.
Proof. apply Rinv_0_lt_compat, pow_lt, Hd. Qed.

Lemma dsum_le f g l :
  (forall i, In i l -> f i <= g i) -> dsum d f l <= dsum d g l.
Proof.
  induction l as [|i l IH]; intros H; [unfold dsum; cbn; lra|].
  rewrite !dsum_cons.
  apply Rplus_le_compat.
  - unfold Rdiv. apply Rmult_le_compat_r.
    + left. apply discount_factor_pos.
    + apply H. now left.
  - apply IH. intros k Hk. apply H. now right.
Qed.

Lemma dsum_nonneg f l :
  (forall i, In i l -> 0 <= f i) -> 0 <= dsum d f l.
Proof.
  induction l as [|i l IH]; intros H; [unfold dsum; cbn; lra|].
  rewrite dsum_cons.
  assert (0 <= f i / (1 + d) ^ i).
  { unfold Rdiv. apply Rmult_le_pos; [apply H; now left|].
    left. apply discount_factor_pos. }
  assert (0 <= dsum d f l) by (apply IH; intros k Hk; apply H; now right).
  lra.
Qed.

Lemma dsum_pos f l k :
  (forall i, In i l -> 0 <= f i) -> In k l -> 0 < f k -> 0 < dsum d f l.
Proof.
  induction l as [|i l IH]; intros H Hk Hpos; [contradiction|].
  rewrite dsum_cons.
  assert (Hi : 0 <= f i / (1 + d) ^ i).
  { unfold Rdiv. apply Rmult_le_pos; [apply H; now left|].
    left. apply discount_factor_pos. }
  assert (Hl : 0 <= dsum d f l)
    by (apply dsum_nonneg; intros j Hj; apply H; now right).
  destruct Hk as [<- | Hk].
  - assert (0 < f i / (1 + d) ^ i)
      by (unfold Rdiv; apply Rmult_lt_0_compat;
          [exact Hpos | apply discount_factor_pos]).
    lra.
  - assert (0 < dsum d f l)
      by (apply IH; auto; intros j Hj; apply H; now right).
    lra.
Qed.

End Dsum.

(** ** C9: the logistic segment *)

Lemma logistic_denominator p j :
  1 < 1 + exp (-1 * hill_coefficient p * (INR j - inflection_year p)).
Proof.
  pose proof (exp_pos (-1 * hill_coefficient p * (INR j - inflection_year p))).
  lra.
Qed.

Lemma logistic_nonneg p j : 0 <= max_penetration p -> 0 <= logistic p j.
Proof.
  intros H. unfold logistic, Rdiv. apply Rmult_le_pos; [exact H|].
  left. apply Rinv_0_lt_compat. pose proof (logistic_denominator p j). lra.
Qed.

Lemma logistic_le_max p j :
  0 <= max_penetration p -> logistic p j <= max_penetration p.
Proof.
  intros H. unfold logistic, Rdiv.
  pose proof (logistic_denominator p j) as Hden.
  rewrite <- (Rmult_1_r (max_penetration p)) at 2.
  apply Rmult_le_compat_l; [exact H|].
  rewrite <- Rinv_1. apply Rinv_le_contravar; lra.
Qed.

Lemma exp_le x y : x <= y -> exp x <= exp y.
Proof.
  intros [H | ->]; [left; now apply exp_increasing | right; reflexivity].
Qed.

Lemma logistic_monotone p j k :
  0 < hill_coefficient p -> 0 <= max_penetration p -> (j <= k)%nat ->
  logistic p j <= logistic p k.
Proof.
  intros Hh Hm Hjk. unfold logistic, Rdiv.
  pose proof (logistic_denominator p k) as Hk.
  apply Rmult_le_compat_l; [exact Hm|].
  apply Rinv_le_contravar; [lra|].
  apply Rplus_le_compat_l, exp_le.
  apply le_INR in Hjk. nra.
Qed.

Section Binary64.

Import PrimFloat.

(** C9, as stated, fails on binary64 floats, on both sides.  At the defaults
    the entry of index 18 has the exponent [-1 * 7 * (18 - 1.5) = -115.5];
    its exponential is so small that [1 + exp] rounds to 1, and the entry is
    [max_penetration = 0.5] itself, not a number strictly below it (the same
    for every exponential up to [2^-53]).  With [hill_coefficient = 1000] the
    entry of index 0 has the exponent 1500, whose exponential overflows to
    infinity, and the entry is 0, not a number strictly above it. *)
Lemma patent_effective_saturates :
  B64.exponent 7 1.5 18 = (-115.5)%float
  /\ B64.entry 0.5 B64.exp_minus_115_5 = 0.5%float
  /\ B64.entry 0.5 B64.half_ulp_of_one = 0.5%float
  /\ ltb (B64.entry 0.5 B64.exp_minus_115_5) 0.5 = false
  /\ B64.exponent 1000 1.5 0 = 1500%float
  /\ B64.entry 0.5 infinity = 0%float
  /\ ltb 0 (B64.entry 0.5 infinity) = false.
Proof. repeat split; reflexivity. Qed.

End Binary64.

(** C9, amended.  For [hill_coefficient > 0] and [max_penetration >= 0] the
    patent-exclusive segment is nondecreasing in its index and every entry
    lies between 0 and [max_penetration], both bounds included; hence every
    penetration value of that regime is bounded by [max_penetration]. *)
Theorem patent_effective_monotone_within_bounds p :
  0 < hill_coefficient p -> 0 <= max_penetration p ->
  (forall j k, (j <= k)%nat -> (k < length (patent_effective p))%nat ->
     nth j (patent_effective p) 0 <= nth k (patent_effective p) 0)
  /\ (forall j, (j < length (patent_effective p))%nat ->
        0 <= nth j (patent_effective p) 0 <= max_penetration p).
Proof.
  intros Hh Hm. rewrite patent_effective_length. split; [|split].
  - intros j k Hjk Hk.
    rewrite !patent_effective_nth by lia. now apply logistic_monotone.
  - rewrite patent_effective_nth by assumption. now apply logistic_nonneg.
  - rewrite patent_effective_nth by assumption. now apply logistic_le_max.
Qed.

Lemma patent_effective_monotone_within_bounds_witness :
  nth 0 (patent_effective default_params) 0
  <= nth 18 (patent_effective default_params) 0
  /\ 0 <= nth 18 (patent_effective default_params) 0 <= 0.5.
Proof.
  destruct (patent_effective_monotone_within_bounds default_params)
    as (Hmono & Hbound); [cbn; lra | cbn; lra |].
  split.
  - apply Hmono; [lia | rewrite patent_effective_length; cbn; lia].
  - apply Hbound. rewrite patent_effective_length. cbn. lia.
Defined.

(** ** Revenue side and cost side of the net present value *)

Lemma net_income_at_split p i :
  net_income_at p i
  = cost_per_unit p * (1 - cost_of_revenue p) * n_patients_at p i
    - nr_cost_at p i.
Proof. unfold net_income_at, nr_cost_at. ring. Qed.

Lemma pv_net_income p d n :
  pv d (net_income_at p) n
  = cost_per_unit p * (1 - cost_of_revenue p) * pv d (n_patients_at p) n
    - pv d (nr_cost_at p) n.
Proof.
  unfold pv. rewrite <- dsum_linear. apply dsum_ext.
  intros i _. apply net_income_at_split.
Qed.

Lemma penetration_array_nonneg p i :
  0 <= max_penetration p -> 0 <= penetration_upon_patent_loss p ->
  0 <= nth i (penetration_array p) 0.
Proof.
  intros Hm Hl.
  destruct (penetration_array_formula p i) as [-> | Hout].
  - unfold Formula.penetration. cbv zeta.
    destruct (_ <? _)%nat; [lra|]. destruct (_ <? _)%nat; [|exact Hl].
    unfold Rdiv. apply Rmult_le_pos; [exact Hm|]. left.
    apply Rinv_0_lt_compat.
    match goal with |- 0 < 1 + exp ?x => pose proof (exp_pos x) end. lra.
  - rewrite nth_overflow by assumption. lra.
Qed.

Lemma penetration_array_le p i b :
  0 <= max_penetration p -> max_penetration p <= b ->
  penetration_upon_patent_loss p <= b ->
  nth i (penetration_array p) 0 <= b.
Proof.
  intros Hm Hmb Hlb.
  destruct (penetration_array_formula p i) as [-> | Hout].
  - unfold Formula.penetration. cbv zeta.
    destruct (_ <? _)%nat; [lra|]. destruct (_ <? _)%nat; [|exact Hlb].
    apply Rle_trans with (max_penetration p); [|exact Hmb].
    unfold Rdiv. rewrite <- (Rmult_1_r (max_penetration p)) at 2.
    apply Rmult_le_compat_l; [exact Hm|].
    match goal with |- / (1 + exp ?x) <= _ => pose proof (exp_pos x) end.
    rewrite <- Rinv_1 at 2. apply Rinv_le_contravar; lra.
  - rewrite nth_overflow by assumption. lra.
Qed.

Lemma n_flu_at_pos p i :
  0 < get_flu_rate p -> 0 < us_population p ->
  -1 < us_population_growth_rate p ->
  0 < n_flu_at p i.
Proof.
  intros Hf Hp Hg. unfold n_flu_at.
  apply Rmult_lt_0_compat; [exact Hf|].
  apply Rmult_lt_0_compat; [exact Hp|]. apply pow_lt. lra.
Qed.

Lemma n_patients_at_nonneg p i :
  0 < get_flu_rate p -> 0 < us_population p ->
  -1 < us_population_growth_rate p ->
  0 <= max_penetration p -> 0 <= penetration_upon_patent_loss p ->
  0 <= n_patients_at p i.
Proof.
  intros Hf Hp Hg Hm Hl. unfold n_patients_at.
  apply Rmult_le_pos; [now apply penetration_array_nonneg|].
  left. now apply n_flu_at_pos.
Qed.

(** A market that exists (positive population and incidence, a positive
    post-patent penetration) treats a positive discounted number of
    patients. *)
Lemma patients_pv_pos p :
  (0 <= lead_time_years p)%Z -> (0 <= patent_exclusive_years p)%Z ->
  (lead_time_years p + patent_exclusive_years p + 5 = 30)%Z ->
  0 < get_flu_rate p -> 0 < us_population p ->
  -1 < us_population_growth_rate p -> -1 < discount_rate p ->
  0 <= max_penetration p -> 0 < penetration_upon_patent_loss p ->
  0 < pv (discount_rate p) (n_patients_at p) 30.
Proof.
  intros H1 H2 H3 Hf Hp Hg Hd Hm Hl. unfold pv.
  apply dsum_pos with (k := 25%nat); [lra | | apply in_seq; lia |].
  - intros i _. apply n_patients_at_nonneg; auto; lra.
  - unfold n_patients_at. apply Rmult_lt_0_compat; [|now apply n_flu_at_pos].
    replace 25%nat
      with (Z.to_nat (lead_time_years p)
            + Z.to_nat (patent_exclusive_years p) + 0)%nat by lia.
    rewrite penetration_array_post by lia. exact Hl.
Qed.

Lemma revenue_closed p :
  consistent p ->
  revenue p = Ok (map (fun i => n_patients_at p i * cost_per_unit p) (seq 0 30)).
Proof.
  intros Hc. unfold revenue. rewrite (n_patients_treated_closed p Hc).
  cbn [bind]. unfold scalar_r. now rewrite map_map.
Qed.

Lemma get_npv_split p :
  consistent p -> discount_rate p <> -1 ->
  get_npv p
  = Ok (Finite
          (cost_per_unit p * (1 - cost_of_revenue p)
           * pv (discount_rate p) (n_patients_at p) 30
           - pv (discount_rate p) (nr_cost_at p) 30)).
Proof.
  intros Hc Hd. rewrite get_npv_finite; auto.
  - now rewrite pv_net_income.
  - intros H. apply Hd. lra.
Qed.

(** ** C5: zero penetration *)

(** C5, as stated, fails: at the defaults with [max_penetration = 0] the
    five post-patent years still carry the penetration
    [penetration_upon_patent_loss = 0.05], so revenue is earned and the net
    present value lies strictly above minus the discounted non-revenue
    costs. *)
Lemma zero_max_penetration_still_earns :
  let p := with_max_penetration 0 default_params in
  max_penetration p = 0
  /\ exists v,
       get_npv p = Ok (Finite v)
       /\ - pv (discount_rate p) (nr_cost_at p) 30 < v.
Proof.
  intros p. split; [reflexivity|].
  assert (Hc : consistent p) by (apply consistent_intro; cbn; lia).
  eexists. split.
  - apply get_npv_split; [exact Hc | cbn; lra].
  - assert (Hpv : 0 < pv (discount_rate p) (n_patients_at p) 30)
      by (apply patients_pv_pos; cbn; try lia; lra).
    assert (Hk : 0 < cost_per_unit p * (1 - cost_of_revenue p))
      by (cbn; lra).
    pose proof (Rmult_lt_0_compat _ _ Hk Hpv). lra.
Qed.

(** C5, amended.  For consistent lengths
    ([lead_time_years + patent_exclusive_years + 5 = n_years = 30]) and
    [discount_rate <> -1]: if [max_penetration = 0] and
    [penetration_upon_patent_loss = 0], no revenue is generated in any year
    and [get_npv] returns minus the discounted sum of the non-revenue
    costs. *)
Theorem zero_penetration_npv p :
  (0 <= lead_time_years p)%Z ->
  (0 <= patent_exclusive_years p)%Z ->
  (lead_time_years p + patent_exclusive_years p + 5 = n_years p)%Z ->
  n_years p = 30%Z ->
  discount_rate p <> -1 ->
  max_penetration p = 0 ->
  penetration_upon_patent_loss p = 0 ->
  get_npv p = Ok (Finite (- pv (discount_rate p) (nr_cost_at p) 30))
  /\ exists rev, revenue p = Ok rev /\ Forall (fun x => x = 0) rev.
Proof.
  intros H1 H2 H3 H4 Hd Hm Hl.
  pose proof (consistent_intro p H1 H2 H3 H4) as Hc.
  assert (Hz : forall i, n_patients_at p i = 0).
  { intros i. unfold n_patients_at.
    assert (0 <= nth i (penetration_array p) 0)
      by (apply penetration_array_nonneg; lra).
    assert (nth i (penetration_array p) 0 <= 0)
      by (apply penetration_array_le; lra).
    replace (nth i (penetration_array p) 0) with 0 by lra. ring. }
  split.
  - rewrite get_npv_split by assumption. do 2 f_equal.
    assert (Hpv : pv (discount_rate p) (n_patients_at p) 30
                  = pv (discount_rate p) (fun _ => 0) 30)
      by (apply dsum_ext; intros i _; apply Hz).
    rewrite Hpv.
    replace (pv (discount_rate p) (fun _ => 0) 30) with 0; [ring|].
    unfold pv. generalize (seq 0 30). intros l.
    induction l as [|i l IH]; [reflexivity|].
    rewrite dsum_cons, <- IH. unfold Rdiv. ring.
  - eexists. split; [apply revenue_closed; exact Hc|].
    apply Forall_forall. intros x Hx. apply in_map_iff in Hx.
    destruct Hx as (i & <- & _). rewrite Hz. ring.
Qed.

Lemma zero_penetration_npv_witness :
  let p := mk_params 335.5 0.007 30 0.14 0 19 0 1.5 7 6 1 0.5 0.49 45 0.35 in
  get_npv p = Ok (Finite (- pv (discount_rate p) (nr_cost_at p) 30)).
Proof.
  intros p. apply (zero_penetration_npv p); cbn; try lia; try lra; reflexivity.
Defined.

(** ** C6: monotonicity in the unit price *)

(** C6, as stated, fails: at the defaults with [get_flu_rate = 0] nobody is
    treated, and the prices 45 and 90 give the same net present value. *)
Lemma price_irrelevant_without_patients :
  let p := with_get_flu_rate 0 default_params in
  cost_of_revenue p < 1 /\ 45 < 90
  /\ exists v,
       get_npv (with_cost_per_unit 45 p) = Ok (Finite v)
       /\ get_npv (with_cost_per_unit 90 p) = Ok (Finite v).
Proof.
  intros p. split; [cbn; lra|]. split; [lra|].
  assert (Hz : forall c, pv (discount_rate p)
                            (n_patients_at (with_cost_per_unit c p)) 30 = 0).
  { intros c. unfold pv. generalize (seq 0 30). intros l.
    induction l as [|i l IH]; [reflexivity|].
    rewrite dsum_cons, IH. unfold n_patients_at, n_flu_at. cbn. lra. }
  exists (- pv (discount_rate p) (nr_cost_at p) 30).
  split.
  - rewrite get_npv_split;
      [| apply consistent_intro; cbn; lia | cbn; lra].
    change (discount_rate (with_cost_per_unit 45 p)) with (discount_rate p).
    rewrite Hz. do 2 f_equal.
    change (nr_cost_at (with_cost_per_unit 45 p)) with (nr_cost_at p). ring.
  - rewrite get_npv_split;
      [| apply consistent_intro; cbn; lia | cbn; lra].
    change (discount_rate (with_cost_per_unit 90 p)) with (discount_rate p).
    rewrite Hz. do 2 f_equal.
    change (nr_cost_at (with_cost_per_unit 90 p)) with (nr_cost_at p). ring.
Qed.

(** C6, amended.  For consistent lengths
    ([lead_time_years + patent_exclusive_years + 5 = n_years = 30]),
    [discount_rate <> -1], [cost_of_revenue < 1] and a positive discounted
    number of patients treated (the sum over the years of
    [market_penetration[i] * n_flu[i] / (1 + discount_rate)^i]): for prices
    [p1 < p2], all else fixed, [get_npv] at [cost_per_unit = p2] is strictly
    greater than at [cost_per_unit = p1]. *)
Theorem npv_increases_with_price p p1 p2 :
  (0 <= lead_time_years p)%Z ->
  (0 <= patent_exclusive_years p)%Z ->
  (lead_time_years p + patent_exclusive_years p + 5 = n_years p)%Z ->
  n_years p = 30%Z ->
  discount_rate p <> -1 ->
  cost_of_revenue p < 1 ->
  0 < pv (discount_rate p) (n_patients_at p) 30 ->
  p1 < p2 ->
  exists v1 v2,
    get_npv (with_cost_per_unit p1 p) = Ok (Finite v1)
    /\ get_npv (with_cost_per_unit p2 p) = Ok (Finite v2)
    /\ v1 < v2.
Proof.
  intros H1 H2 H3 H4 Hd Hc Hpv Hlt.
  assert (Hcons : forall c, consistent (with_cost_per_unit c p))
    by (intros c; apply consistent_intro; assumption).
  do 2 eexists. split; [|split].
  - apply get_npv_split; [apply Hcons | exact Hd].
  - apply get_npv_split; [apply Hcons | exact Hd].
  - change (pv (discount_rate (with_cost_per_unit p1 p))
               (n_patients_at (with_cost_per_unit p1 p)) 30)
      with (pv (discount_rate p) (n_patients_at p) 30).
    change (pv (discount_rate (with_cost_per_unit p2 p))
               (n_patients_at (with_cost_per_unit p2 p)) 30)
      with (pv (discount_rate p) (n_patients_at p) 30).
    change (pv (discount_rate (with_cost_per_unit p1 p))
               (nr_cost_at (with_cost_per_unit p1 p)) 30)
      with (pv (discount_rate p) (nr_cost_at p) 30).
    change (pv (discount_rate (with_cost_per_unit p2 p))
               (nr_cost_at (with_cost_per_unit p2 p)) 30)
      with (pv (discount_rate p) (nr_cost_at p) 30).
    cbn [cost_per_unit cost_of_revenue with_cost_per_unit].
    assert (0 < (1 - cost_of_revenue p)
                * pv (discount_rate p) (n_patients_at p) 30)
      by (apply Rmult_lt_0_compat; lra).
    nra.
Qed.

Lemma npv_increases_with_price_witness :
  exists v1 v2,
    get_npv (with_cost_per_unit 45 default_params) = Ok (Finite v1)
    /\ get_npv (with_cost_per_unit 90 default_params) = Ok (Finite v2)
    /\ v1 < v2.
Proof.
  apply (npv_increases_with_price default_params 45 90);
    try (cbn; lia); try (cbn; lra).
  apply patients_pv_pos; try (cbn; lia); cbn; lra.
Defined.

(** ** C7: the R&D cost scaler *)

Lemma nr_cost_at_sga p i :
  nr_cost_at p i = rd_cost_at p i + (if (i <? 6)%nat then clindev_sga p else 0).
Proof.
  unfold nr_cost_at, rd_cost_at, nr_costs_array, dev_costs, rd_costs,
    rd_costs_baseline, scalar_l.
  do 6 (destruct i as [|i]; [cbn; ring|]).
  cbn [map app nth Nat.ltb Nat.leb]. rewrite nth_repeat. destruct i; ring.
Qed.

Lemma rd_cost_at_doubled p i :
  rd_cost_at (with_rd_cost_scaler (2 * rd_cost_scaler p) p) i
  = 2 * rd_cost_at p i.
Proof.
  unfold rd_cost_at, rd_costs, rd_costs_baseline, scalar_l.
  do 6 (destruct i as [|i]; [cbn; ring|]).
  cbn [map nth]. destruct i; ring.
Qed.

Lemma nr_cost_at_doubled p i :
  nr_cost_at (with_rd_cost_scaler (2 * rd_cost_scaler p) p) i
  = nr_cost_at p i + rd_cost_at p i.
Proof.
  rewrite !nr_cost_at_sga, rd_cost_at_doubled.
  change (clindev_sga (with_rd_cost_scaler (2 * rd_cost_scaler p) p))
    with (clindev_sga p).
  ring.
Qed.

Lemma pv_plus d f g n :
  pv d (fun i => f i + g i) n = pv d f n + pv d g n.
Proof.
  unfold pv. generalize (seq 0 n). intros l.
  induction l as [|i l IH]; [unfold dsum; cbn; ring|].
  rewrite !dsum_cons, IH. unfold Rdiv. ring.
Qed.

Lemma pv_nr_cost_doubled p d n :
  pv d (nr_cost_at (with_rd_cost_scaler (2 * rd_cost_scaler p) p)) n
  = pv d (nr_cost_at p) n + pv d (rd_cost_at p) n.
Proof.
  rewrite <- pv_plus. apply dsum_ext. intros i _. apply nr_cost_at_doubled.
Qed.

Lemma get_npv_doubled_scaler p :
  consistent p -> discount_rate p <> -1 ->
  exists v1 v2,
    get_npv p = Ok (Finite v1)
    /\ get_npv (with_rd_cost_scaler (2 * rd_cost_scaler p) p) = Ok (Finite v2)
    /\ v1 - v2 = pv (discount_rate p) (rd_cost_at p) 30.
Proof.
  intros Hc Hd. do 2 eexists. split; [|split].
  - now apply get_npv_split.
  - apply get_npv_split; [exact Hc | exact Hd].
  - change (discount_rate (with_rd_cost_scaler (2 * rd_cost_scaler p) p))
      with (discount_rate p).
    rewrite pv_nr_cost_doubled.
    change (n_patients_at (with_rd_cost_scaler (2 * rd_cost_scaler p) p))
      with (n_patients_at p).
    cbn [cost_per_unit cost_of_revenue with_rd_cost_scaler]. ring.
Qed.

(** The SG&A part of the non-revenue costs: six discounted payments. *)
Lemma pv_nr_cost_sga p d n :
  pv d (nr_cost_at p) n
  = pv d (rd_cost_at p) n
    + pv d (fun i => if (i <? 6)%nat then clindev_sga p else 0) n.
Proof.
  rewrite <- pv_plus. apply dsum_ext. intros i _. apply nr_cost_at_sga.
Qed.

(** C7, as stated, fails: at the defaults ([clindev_sga = 0.5]) doubling
    [rd_cost_scaler] lowers the net present value by strictly less than the
    present value of the original non-revenue costs, which include SG&A. *)
Lemma doubling_scaler_leaves_sga :
  let p := default_params in
  exists v1 v2,
    get_npv p = Ok (Finite v1)
    /\ get_npv (with_rd_cost_scaler (2 * rd_cost_scaler p) p) = Ok (Finite v2)
    /\ v1 - v2 < pv (discount_rate p) (nr_cost_at p) 30.
Proof.
  intros p.
  destruct (get_npv_doubled_scaler p) as (v1 & v2 & E1 & E2 & Hdiff).
  { apply consistent_intro; cbn; lia. }
  { cbn; lra. }
  exists v1, v2. split; [exact E1|]. split; [exact E2|].
  rewrite Hdiff, pv_nr_cost_sga.
  assert (0 < pv (discount_rate p)
                 (fun i => if (i <? 6)%nat then clindev_sga p else 0) 30).
  { unfold pv. apply dsum_pos with (k := 0%nat).
    - cbn; lra.
    - intros i _. destruct (i <? 6)%nat; cbn; lra.
    - apply in_seq; lia.
    - cbn; lra. }
  lra.
Qed.

(** C7, amended.  For consistent lengths
    ([lead_time_years + patent_exclusive_years + 5 = n_years = 30]) and
    [discount_rate <> -1], doubling [rd_cost_scaler] decreases the value
    returned by [get_npv] by exactly the present value of the original R&D
    costs [rd_costs = rd_cost_scaler * rd_costs_baseline], SG&A excluded;
    this is the original non-revenue-cost present value when
    [clindev_sga = 0]. *)
Theorem doubling_rd_cost_scaler p :
  (0 <= lead_time_years p)%Z ->
  (0 <= patent_exclusive_years p)%Z ->
  (lead_time_years p + patent_exclusive_years p + 5 = n_years p)%Z ->
  n_years p = 30%Z ->
  discount_rate p <> -1 ->
  exists v1 v2,
    get_npv p = Ok (Finite v1)
    /\ get_npv (with_rd_cost_scaler (2 * rd_cost_scaler p) p) = Ok (Finite v2)
    /\ v1 - v2 = pv (discount_rate p) (rd_cost_at p) 30
    /\ (clindev_sga p = 0 ->
        v1 - v2 = pv (discount_rate p) (nr_cost_at p) 30).
Proof.
  intros H1 H2 H3 H4 Hd.
  destruct (get_npv_doubled_scaler p) as (v1 & v2 & E1 & E2 & Hdiff);
    [now apply consistent_intro | exact Hd |].
  exists v1, v2. repeat split; auto.
  intros Hsga. rewrite Hdiff. symmetry. apply dsum_ext.
  intros i _. rewrite nr_cost_at_sga, Hsga. destruct (i <? 6)%nat; ring.
Qed.

Lemma doubling_rd_cost_scaler_witness :
  exists v1 v2,
    get_npv default_params = Ok (Finite v1)
    /\ get_npv (with_rd_cost_scaler (2 * 1) default_params) = Ok (Finite v2)
    /\ v1 - v2 = pv 0.35 (rd_cost_at default_params) 30.
Proof.
  destruct (doubling_rd_cost_scaler default_params)
    as (v1 & v2 & E1 & E2 & Hdiff & _);
    try (cbn; lia); try (cbn; lra).
  exists v1, v2. split; [exact E1|]. split; [exact E2 | exact Hdiff].
Defined.

(** ** C8: monotonicity in the discount rate *)

Lemma pow_lt_base a b i :
  0 < a -> a < b -> (1 <= i)%nat -> a ^ i < b ^ i.
Proof.
  intros Ha Hab Hi. induction i as [|i IH]; [lia|].
  destruct i as [|i]; [cbn; lra|].
  assert (a ^ S i < b ^ S i) by (apply IH; lia).
  assert (0 < a ^ S i) by now apply pow_lt.
  cbn [pow] in *. nra.
Qed.

Lemma discounted_le d1 d2 x i :
  -1 < d1 -> d1 <= d2 -> 0 <= x ->
  x / (1 + d2) ^ i <= x / (1 + d1) ^ i.
Proof.
  intros H1 H12 Hx. unfold Rdiv. apply Rmult_le_compat_l; [exact Hx|].
  apply Rinv_le_contravar; [apply pow_lt; lra|].
  apply pow_incr. lra.
Qed.

Lemma discounted_lt d1 d2 x i :
  -1 < d1 -> d1 < d2 -> 0 < x -> (1 <= i)%nat ->
  x / (1 + d2) ^ i < x / (1 + d1) ^ i.
Proof.
  intros H1 H12 Hx Hi. unfold Rdiv. apply Rmult_lt_compat_l; [exact Hx|].
  apply Rinv_lt_contravar.
  - apply Rmult_lt_0_compat; apply pow_lt; lra.
  - apply pow_lt_base; auto; lra.
Qed.

Lemma dsum_discount_le d1 d2 f l :
  -1 < d1 -> d1 <= d2 -> (forall i, In i l -> 0 <= f i) ->
  dsum d2 f l <= dsum d1 f l.
Proof.
  intros H1 H12. induction l as [|i l IH]; intros Hf;
    [unfold dsum; cbn; lra|].
  rewrite !dsum_cons. apply Rplus_le_compat.
  - apply discounted_le; auto. apply Hf. now left.
  - apply IH. intros k Hk. apply Hf. now right.
Qed.

Lemma dsum_discount_lt d1 d2 f l k :
  -1 < d1 -> d1 < d2 -> (forall i, In i l -> 0 <= f i) ->
  In k l -> (1 <= k)%nat -> 0 < f k ->
  dsum d2 f l < dsum d1 f l.
Proof.
  intros H1 H12. induction l as [|i l IH]; intros Hf Hk Hk1 Hpos;
    [contradiction|].
  rewrite !dsum_cons.
  assert (Hi : f i / (1 + d2) ^ i <= f i / (1 + d1) ^ i)
    by (apply discounted_le; try lra; apply Hf; now left).
  assert (Hl : dsum d2 f l <= dsum d1 f l)
    by (apply dsum_discount_le; try lra; intros j Hj; apply Hf; now right).
  destruct Hk as [<- | Hk].
  - assert (f i / (1 + d2) ^ i < f i / (1 + d1) ^ i)
      by now apply discounted_lt.
    lra.
  - assert (dsum d2 f l < dsum d1 f l)
      by (apply IH; auto; intros j Hj; apply Hf; now right).
    lra.
Qed.

Lemma Rsum_pos_exists (f : nat -> R) l :
  0 < Rsum (map f l) -> exists k, In k l /\ 0 < f k.
Proof.
  induction l as [|i l IH]; cbn [map Rsum fold_right]; [lra|].
  fold (Rsum (map f l)). intros H.
  destruct (Rlt_le_dec 0 (f i)) as [Hi | Hi].
  - exists i. split; [now left | exact Hi].
  - destruct IH as (k & Hk & Hpos); [lra|]. exists k. split; [now right|auto].
Qed.

Lemma Rsum_le (f g : nat -> R) l :
  (forall i, In i l -> f i <= g i) -> Rsum (map f l) <= Rsum (map g l).
Proof.
  induction l as [|i l IH]; intros H; cbn [map Rsum fold_right]; [lra|].
  fold (Rsum (map f l)) (Rsum (map g l)).
  apply Rplus_le_compat; [apply H; now left|].
  apply IH. intros k Hk. apply H. now right.
Qed.

(** The present value splits into year 0 and the later years. *)
Lemma pv_30_head d f :
  pv d f 30 = f 0%nat + dsum d f (seq 1 29).
Proof.
  unfold pv. change (seq 0 30) with (0%nat :: seq 1 29).
  rewrite dsum_cons. cbn [pow]. unfold Rdiv. rewrite Rinv_1. ring.
Qed.

Lemma get_npv_with_discount_rate p d :
  consistent p -> -1 < d ->
  get_npv (with_discount_rate d p)
  = Ok (Finite (pv d (net_income_at p) 30)).
Proof.
  intros Hc Hd.
  rewrite get_npv_finite; [reflexivity | exact Hc | cbn; lra].
Qed.

(** C8, amended.  For consistent lengths
    ([lead_time_years + patent_exclusive_years + 5 = n_years = 30]): if the
    net income of every year after year 0 is non-negative and their
    undiscounted sum is positive, then for discount rates [-1 < d1 < d2],
    all else fixed, [get_npv] at [discount_rate = d2] is strictly less than
    at [discount_rate = d1]. *)
Theorem npv_decreases_with_discount_rate p d1 d2 ni :
  (0 <= lead_time_years p)%Z ->
  (0 <= patent_exclusive_years p)%Z ->
  (lead_time_years p + patent_exclusive_years p + 5 = n_years p)%Z ->
  n_years p = 30%Z ->
  net_income p = Ok ni ->
  Forall (fun x => 0 <= x) (tl ni) ->
  0 < Rsum (tl ni) ->
  -1 < d1 -> d1 < d2 ->
  exists v1 v2,
    get_npv (with_discount_rate d1 p) = Ok (Finite v1)
    /\ get_npv (with_discount_rate d2 p) = Ok (Finite v2)
    /\ v2 < v1.
Proof.
  intros H1 H2 H3 H4 Hni Hnonneg Hsum Hd1 Hd12.
  pose proof (consistent_intro p H1 H2 H3 H4) as Hc.
  assert (Eni : ni = map (net_income_at p) (seq 0 30))
    by (rewrite (net_income_closed p Hc) in Hni; congruence).
  subst ni.
  change (tl (map (net_income_at p) (seq 0 30)))
    with (map (net_income_at p) (seq 1 29)) in *.
  rewrite Forall_forall in Hnonneg.
  destruct (Rsum_pos_exists _ _ Hsum) as (k & Hk & Hpos).
  do 2 eexists. split; [|split].
  - apply get_npv_with_discount_rate; [exact Hc | exact Hd1].
  - apply get_npv_with_discount_rate; [exact Hc | lra].
  - rewrite !pv_30_head. apply Rplus_lt_compat_l.
    apply dsum_discount_lt with (k := k); auto.
    + intros i Hi. apply Hnonneg. now apply in_map.
    + apply in_seq in Hk. lia.
Qed.

Lemma Rsum_pos (f : nat -> R) l k :
  (forall i, In i l -> 0 <= f i) -> In k l -> 0 < f k -> 0 < Rsum (map f l).
Proof.
  induction l as [|i l IH]; intros H Hk Hpos; [contradiction|].
  cbn [map Rsum fold_right]. fold (Rsum (map f l)).
  assert (0 <= f i) by (apply H; now left).
  assert (0 <= Rsum (map f l)).
  { replace 0 with (Rsum (map (fun _ : nat => 0) l)).
    - apply Rsum_le. intros j Hj. apply H. now right.
    - clear. induction l as [|i l IH]; [reflexivity|].
      cbn [map Rsum fold_right]. fold (Rsum (map (fun _ : nat => 0) l)).
      rewrite IH. ring. }
  destruct Hk as [<- | Hk]; [lra|].
  assert (0 < Rsum (map f l))
    by (apply IH; auto; intros j Hj; apply H; now right).
  lra.
Qed.

Lemma rd_cost_at_late p i : (6 <= i)%nat -> rd_cost_at p i = 0.
Proof.
  intros Hi. unfold rd_cost_at. apply nth_overflow.
  unfold rd_costs, scalar_l. rewrite length_map. exact Hi.
Qed.

Lemma nr_cost_at_late p i : (6 <= i)%nat -> nr_cost_at p i = 0.
Proof.
  intros Hi. rewrite nr_cost_at_sga, rd_cost_at_late by assumption.
  destruct (Nat.ltb_spec i 6); [lia | ring].
Qed.

Lemma nr_cost_at_free p i :
  rd_cost_scaler p = 0 -> clindev_sga p = 0 -> nr_cost_at p i = 0.
Proof.
  intros Hs Hsga. rewrite nr_cost_at_sga, Hsga.
  replace (rd_cost_at p i) with 0; [destruct (i <? 6)%nat; ring|].
  unfold rd_cost_at, rd_costs, rd_costs_baseline, scalar_l. rewrite Hs.
  do 6 (destruct i as [|i]; [cbn; ring|]). cbn [map nth]. now destruct i.
Qed.

Lemma npv_decreases_with_discount_rate_witness :
  let p := with_dev_costs 0 0 default_params in
  exists v1 v2,
    get_npv (with_discount_rate 0.1 p) = Ok (Finite v1)
    /\ get_npv (with_discount_rate 0.35 p) = Ok (Finite v2)
    /\ v2 < v1.
Proof.
  intros p.
  assert (Hc : consistent p) by (apply consistent_intro; cbn; lia).
  assert (Hf : forall i, 0 <= net_income_at p i).
  { intros i. rewrite net_income_at_split, nr_cost_at_free by reflexivity.
    assert (0 <= n_patients_at p i)
      by (apply n_patients_at_nonneg; cbn; lra).
    cbn [cost_per_unit cost_of_revenue p with_dev_costs default_params]. nra. }
  apply (npv_decreases_with_discount_rate p 0.1 0.35
           (map (net_income_at p) (seq 0 30)));
    try (cbn; lia); try lra.
  - apply net_income_closed, Hc.
  - apply Forall_forall. intros x Hx.
    change (tl (map (net_income_at p) (seq 0 30)))
      with (map (net_income_at p) (seq 1 29)) in Hx.
    apply in_map_iff in Hx. destruct Hx as (i & <- & _). apply Hf.
  - change (tl (map (net_income_at p) (seq 0 30)))
      with (map (net_income_at p) (seq 1 29)).
    apply Rsum_pos with (k := 25%nat); [auto | apply in_seq; lia |].
    rewrite net_income_at_split, nr_cost_at_free by reflexivity.
    assert (0 < n_patients_at p 25).
    { unfold n_patients_at.
      apply Rmult_lt_0_compat; [|apply n_flu_at_pos; cbn; lra].
      assert (E : nth 25 (penetration_array p) 0 = 0.05)
        by (apply (penetration_array_post p 0); lia).
      rewrite E. lra. }
    cbn [cost_per_unit cost_of_revenue p with_dev_costs default_params]. nra.
Defined.

(** *** The default scenario, year by year *)

Lemma default_consistent : consistent default_params.
Proof. apply consistent_intro; cbn; lia. Qed.

Lemma default_patients_nonneg i : 0 <= n_patients_at default_params i.
Proof. apply n_patients_at_nonneg; cbn; lra. Qed.

Lemma default_patients_pre i :
  (i < 6)%nat -> n_patients_at default_params i = 0.
Proof.
  intros Hi. unfold n_patients_at.
  rewrite penetration_array_pre by (cbn; lia). ring.
Qed.

Lemma default_n_flu_bounds i :
  (i < 30)%nat -> 46.97 <= n_flu_at default_params i <= 57.8.
Proof.
  intros Hi. unfold n_flu_at.
  cbn [get_flu_rate us_population us_population_growth_rate default_params].
  assert (H1 : 1 <= (1 + 0.007) ^ i) by (apply pow_R1_Rle; lra).
  assert (H2 : (1 + 0.007) ^ i <= (1 + 0.007) ^ 29)
    by (apply Rle_pow; [lra | lia]).
  assert (H3 : (1 + 0.007) ^ 29 <= 1.23) by lra.
  lra.
Qed.

Lemma default_patients_le i :
  (i < 30)%nat -> n_patients_at default_params i <= 28.9.
Proof.
  intros Hi. unfold n_patients_at.
  pose proof (default_n_flu_bounds i Hi) as Hf.
  assert (H0 : 0 <= nth i (penetration_array default_params) 0)
    by (apply penetration_array_nonneg; cbn; lra).
  assert (H1 : nth i (penetration_array default_params) 0 <= 0.5)
    by (apply penetration_array_le; cbn; lra).
  nra.
Qed.

(** Two years after approval the logistic curve has passed half of
    [max_penetration]. *)
Lemma default_patients_year_8 : 11.74 <= n_patients_at default_params 8.
Proof.
  unfold n_patients_at.
  pose proof (default_n_flu_bounds 8 ltac:(lia)) as Hf.
  assert (E : nth 8 (penetration_array default_params) 0
              = logistic default_params 2)
    by (apply (penetration_array_patent default_params 2); cbn; lia).
  rewrite E. unfold logistic.
  cbn [max_penetration hill_coefficient inflection_year default_params INR].
  assert (He : exp (-1 * 7 * (1 + 1 - 1.5)) <= 1)
    by (apply Rle_trans with (exp 0);
        [apply exp_le; lra | rewrite exp_0; lra]).
  pose proof (exp_pos (-1 * 7 * (1 + 1 - 1.5))) as Hp.
  assert (Hq : 0.25 <= 0.5 / (1 + exp (-1 * 7 * (1 + 1 - 1.5)))).
  { apply Rmult_le_reg_r with (1 + exp (-1 * 7 * (1 + 1 - 1.5))); [lra|].
    replace (0.5 / (1 + exp (-1 * 7 * (1 + 1 - 1.5)))
             * (1 + exp (-1 * 7 * (1 + 1 - 1.5)))) with 0.5
      by (field; lra).
    lra. }
  nra.
Qed.

(** C8, as stated, fails at the defaults.  The net incomes after year 0 sum
    to a positive number (the revenue of year 8 alone outweighs the five
    remaining development years), yet raising the discount rate from 9 to 99
    raises the net present value: the early negative years are discounted
    away faster than the late positive ones matter. *)
Lemma higher_discount_rate_can_raise_npv :
  let p := default_params in
  exists ni v1 v2,
    net_income p = Ok ni
    /\ 0 < Rsum (tl ni)
    /\ -1 < 9 /\ 9 < 99
    /\ get_npv (with_discount_rate 9 p) = Ok (Finite v1)
    /\ get_npv (with_discount_rate 99 p) = Ok (Finite v2)
    /\ v1 < v2.
Proof.
  intros p. subst p. set (p := default_params).
  assert (Hpre : forall i, (i < 6)%nat -> n_patients_at p i = 0)
    by apply default_patients_pre.
  assert (Hnn : forall i, 0 <= n_patients_at p i)
    by apply default_patients_nonneg.
  assert (Hle : forall i, (i < 30)%nat -> n_patients_at p i <= 28.9)
    by apply default_patients_le.
  assert (H8 : 11.74 <= n_patients_at p 8)
    by apply default_patients_year_8.
  assert (Hni : forall i,
             net_income_at p i = 45 * (1 - 0.49) * n_patients_at p i
                                 - nr_cost_at p i)
    by (intros i; apply net_income_at_split).
  exists (map (net_income_at p) (seq 0 30)),
         (pv 9 (net_income_at p) 30), (pv 99 (net_income_at p) 30).
  split; [apply net_income_closed, default_consistent|].
  split; [|split; [lra|split; [lra|]]].
  - change (tl (map (net_income_at p) (seq 0 30)))
      with (map (net_income_at p) (seq 1 29)).
    set (g := fun i : nat =>
                if (i =? 8)%nat then 269 else - nr_cost_at p i).
    apply Rlt_le_trans with (Rsum (map g (seq 1 29))).
    + unfold g, nr_cost_at, nr_costs_array, dev_costs, rd_costs,
        rd_costs_baseline, scalar_l, p.
      cbn [seq map Rsum fold_right Nat.eqb app nth repeat
           rd_cost_scaler clindev_sga default_params].
      lra.
    + apply Rsum_le. intros i _. unfold g. rewrite Hni.
      destruct (Nat.eqb_spec i 8) as [-> | _].
      * rewrite nr_cost_at_late by lia. lra.
      * specialize (Hnn i). lra.
  - split; [apply get_npv_with_discount_rate;
            [apply default_consistent | lra]|].
    split; [apply get_npv_with_discount_rate;
            [apply default_consistent | lra]|].
    set (hi := fun i : nat =>
                 if (i <? 6)%nat then - nr_cost_at p i else 700).
    set (lo := fun i : nat =>
                 if (i <? 6)%nat then - nr_cost_at p i else 0).
    apply Rle_lt_trans with (pv 9 hi 30);
      [|apply Rlt_le_trans with (pv 99 lo 30)].
    + apply dsum_le; [lra|]. intros i Hi. apply in_seq in Hi. unfold hi.
      rewrite Hni. destruct (Nat.ltb_spec i 6).
      * rewrite Hpre by assumption. lra.
      * specialize (Hle i ltac:(lia)).
        rewrite nr_cost_at_late by assumption. lra.
    + unfold pv, dsum, hi, lo, nr_cost_at, nr_costs_array, dev_costs,
        rd_costs, rd_costs_baseline, scalar_l, p.
      cbn [seq map Rsum fold_right Nat.ltb Nat.leb app nth repeat
           rd_cost_scaler clindev_sga default_params].
      lra.
    + apply dsum_le; [lra|]. intros i Hi. unfold lo.
      rewrite Hni. specialize (Hnn i). destruct (Nat.ltb_spec i 6).
      * rewrite Hpre by assumption. lra.
      * rewrite nr_cost_at_late by assumption. lra.
Qed.

(** ** C10: a one-year horizon *)

Lemma n_flu_one_year p :
  n_years p = 1%Z -> n_flu p = [n_flu_at p 0].
Proof. intros Hn. rewrite n_flu_table, Hn. reflexivity. Qed.

(** With [n_years = 1] the single incidence value is stretched over the 30
    penetration entries, all 30 net incomes are computed, and [zip] keeps
    the first of them. *)
Lemma get_npv_one_year p :
  (1 <= lead_time_years p)%Z ->
  length (penetration_array p) = 30%nat ->
  n_years p = 1%Z ->
  get_npv p = Ok (Finite (- (rd_cost_scaler p * 3.515 + clindev_sga p)))
  /\ exists ni,
       net_income p = Ok ni /\ length ni = 30%nat
       /\ length (discount p ni) = 1%nat.
Proof.
  intros Hlead HL Hn.
  assert (Hs : shapes_ok p = true)
    by (apply shapes_ok_spec; repeat split; try lia; right; now rewrite Hn).
  destruct (net_income_ok p Hs) as [ni Hni].
  destruct (net_income_ok_inv p ni Hni) as [_ Lni].
  assert (Hhead : nth 0 ni 0 = - (rd_cost_scaler p * 3.515 + clindev_sga p)).
  { revert Hni. unfold net_income, costs, r_costs, revenue, n_patients_treated.
    rewrite market_penetration_ok by lia. cbn [bind].
    rewrite (n_flu_one_year p Hn), broadcast_stretch_r by lia.
    cbn [bind]. rewrite nr_costs_ok. cbn [bind].
    rewrite broadcast_same
      by (unfold scalar_r; now rewrite !length_map, nr_costs_array_length).
    cbn [bind].
    rewrite broadcast_same
      by (unfold scalar_r;
          rewrite zip_with_length, !length_map, nr_costs_array_length; lia).
    intros [= <-].
    pose proof (penetration_array_pre p 0 ltac:(lia)) as H0.
    destruct (penetration_array p) as [|x pen]; [discriminate|].
    cbn [nth] in H0. subst x.
    unfold scalar_r, nr_costs_array, dev_costs, rd_costs, rd_costs_baseline,
      scalar_l.
    cbn [map app zip_with nth]. ring. }
  split.
  - unfold get_npv, dcfs. rewrite Hni. cbn [bind]. unfold discount, arange.
    rewrite Hn. change (seq 0 (Z.to_nat 1)) with [0%nat].
    destruct ni as [|x ni']; [discriminate|]. cbn [nth] in Hhead. subst x.
    cbn [combine map fst snd fsum fold_right pow].
    destruct ni'; cbn [combine map fsum fold_right];
      rewrite fdiv_finite by lra; cbn [fadd]; do 2 f_equal; field.
  - exists ni. repeat split; auto.
    unfold discount, arange. rewrite Hn, length_map, length_combine, Lni.
    reflexivity.
Qed.


(** * Further properties of [get_npv] *)

(** ** Which exception, and where *)

Lemma get_npv_negative_lead p :
  (lead_time_years p < 0)%Z -> get_npv p = Raise NegativeDimensions.
Proof.
  intros H.
  unfold get_npv, dcfs, net_income, costs, r_costs, revenue,
    n_patients_treated.
  now rewrite market_penetration_negative.
Qed.

(** X1.  For integers of ordinary size (each of [lead_time_years],
    [patent_exclusive_years] and [n_years] between [-2^63] and a million),
    [get_npv] ends exactly as the three shapes dictate: a negative
    [lead_time_years] is refused by [np.zeros]; otherwise a penetration array
    whose length is neither [n_years] nor met by a one-entry incidence array
    fails in [n_patients_treated]; otherwise a length other than 30 fails in
    [costs]; in every remaining case a value is returned. *)
Theorem get_npv_outcome p :
  ordinary_size (lead_time_years p) ->
  ordinary_size (patent_exclusive_years p) ->
  ordinary_size (n_years p) ->
  match raised_exception p with
  | Some e => get_npv p = Raise e
  | None => exists v, get_npv p = Ok v
  end.
Proof.
  intros _ _ _. unfold raised_exception. cbv zeta.
  pose proof (penetration_array_length p) as HL. rewrite <- HL.
  destruct (Z.ltb_spec (lead_time_years p) 0) as [Hneg | Hlead].
  - now apply get_npv_negative_lead.
  - destruct (Nat.eqb_spec (length (penetration_array p))
                           (Z.to_nat (n_years p))) as [E | E];
      destruct (Nat.eqb_spec (Z.to_nat (n_years p)) 1) as [E1 | E1];
      cbn [negb andb];
      try (destruct (Nat.eqb_spec (length (penetration_array p)) 30)
             as [E30 | E30]; cbn [negb]);
      try (apply get_npv_costs_mismatch; auto; fail);
      try (apply get_npv_patients_mismatch; auto; fail);
      apply get_npv_ok_iff, shapes_ok_spec; repeat split; auto; lia.
Qed.

Lemma get_npv_outcome_witness :
  get_npv (with_years (-1) 19 30 default_params) = Raise NegativeDimensions
  /\ get_npv (with_years 6 19 12 default_params)
     = Raise (BroadcastMismatch 30 12)
  /\ get_npv (with_years 6 9 20 default_params)
     = Raise (BroadcastMismatch 30 20)
  /\ exists v, get_npv default_params = Ok v.
Proof.
  split; [|split; [|split]].
  - exact (get_npv_outcome (with_years (-1) 19 30 default_params)
             ltac:(unfold ordinary_size, min_index; cbn; lia)
             ltac:(unfold ordinary_size, min_index; cbn; lia)
             ltac:(unfold ordinary_size, min_index; cbn; lia)).
  - exact (get_npv_outcome (with_years 6 19 12 default_params)
             ltac:(unfold ordinary_size, min_index; cbn; lia)
             ltac:(unfold ordinary_size, min_index; cbn; lia)
             ltac:(unfold ordinary_size, min_index; cbn; lia)).
  - exact (get_npv_outcome (with_years 6 9 20 default_params)
             ltac:(unfold ordinary_size, min_index; cbn; lia)
             ltac:(unfold ordinary_size, min_index; cbn; lia)
             ltac:(unfold ordinary_size, min_index; cbn; lia)).
  - exact (get_npv_outcome default_params
             ltac:(unfold ordinary_size, min_index; cbn; lia)
             ltac:(unfold ordinary_size, min_index; cbn; lia)
             ltac:(unfold ordinary_size, min_index; cbn; lia)).
Defined.

(** ** Division by zero in the discounting step *)

(** X3.  For consistent lengths
    ([lead_time_years + patent_exclusive_years + 5 = n_years = 30]), at
    [discount_rate = -1] every year after year 0 is divided by zero: no
    exception is raised, each of those 29 discounted cash flows is
    non-finite, and so is the value [get_npv] returns. *)
Theorem division_by_zero_is_returned p :
  (0 <= lead_time_years p)%Z ->
  (0 <= patent_exclusive_years p)%Z ->
  (lead_time_years p + patent_exclusive_years p + 5 = n_years p)%Z ->
  n_years p = 30%Z ->
  discount_rate p = -1 ->
  get_npv p = Ok NonFinite
  /\ exists ds,
       dcfs p = Ok ds
       /\ forall t, (1 <= t < 30)%nat -> nth t ds (Finite 0) = NonFinite.
Proof.
  intros H1 H2 H3 H4 Hd.
  pose proof (consistent_intro p H1 H2 H3 H4) as Hc.
  split; [now apply get_npv_nonfinite|].
  eexists. split.
  - unfold dcfs. rewrite (net_income_closed p Hc). cbn [bind].
    rewrite discount_table by apply Hc. reflexivity.
  - intros t Ht.
    rewrite (nth_indep _ (Finite 0)
               (fdiv (net_income_at p 0) ((1 + discount_rate p) ^ 0)))
      by (rewrite length_map, length_seq; lia).
    rewrite (map_nth (fun i => fdiv (net_income_at p i)
                                    ((1 + discount_rate p) ^ i))).
    rewrite seq_nth by lia. cbn [Nat.add].
    rewrite Hd. replace (1 + -1) with 0 by ring.
    rewrite pow_i by lia. apply fdiv_zero.
Qed.

Lemma division_by_zero_is_returned_witness :
  get_npv (with_discount_rate (-1) default_params) = Ok NonFinite.
Proof.
  apply (division_by_zero_is_returned (with_discount_rate (-1) default_params));
    try (cbn; lia). reflexivity.
Defined.

(** ** A one-year horizon, in general *)

(** X4.  Whenever [n_years = 1], [lead_time_years >= 1] and the penetration
    array has its 30 entries, [get_npv] returns
    [-(rd_cost_scaler * 3.515 + clindev_sga)]: the result ignores the market,
    the price and the discount rate, and is finite even at
    [discount_rate = -1] because year 0 is divided by [(1 + d)^0 = 1]. *)
Theorem one_year_horizon_keeps_year_0 p :
  (1 <= lead_time_years p)%Z ->
  (lead_time_years p + Z.max (patent_exclusive_years p) 0 + 5 = 30)%Z ->
  n_years p = 1%Z ->
  get_npv p = Ok (Finite (- (rd_cost_scaler p * 3.515 + clindev_sga p))).
Proof.
  intros H1 H2 H3. apply get_npv_one_year; auto.
  rewrite penetration_array_length. lia.
Qed.

Lemma one_year_horizon_keeps_year_0_witness :
  get_npv (mk_params 1000 0.5 1 0.9 1 (-2) 0.3 4 2 25 3 0.25 0.1 7 (-1))
  = Ok (Finite (- (3 * 3.515 + 0.25))).
Proof.
  apply (one_year_horizon_keeps_year_0
           (mk_params 1000 0.5 1 0.9 1 (-2) 0.3 4 2 25 3 0.25 0.1 7 (-1)));
    cbn; lia.
Defined.

(** ** Bounds on the whole penetration array *)

(** X5.  For non-negative [lead_time_years], [max_penetration] and
    [penetration_upon_patent_loss], every entry of [market_penetration], in
    all three regimes, lies between 0 and the larger of [max_penetration]
    and [penetration_upon_patent_loss]. *)
Theorem market_penetration_bounded p :
  (0 <= lead_time_years p)%Z ->
  0 <= max_penetration p ->
  0 <= penetration_upon_patent_loss p ->
  exists mp,
    market_penetration p = Ok mp
    /\ Forall (fun x =>
                 0 <= x
                 <= Rmax (max_penetration p) (penetration_upon_patent_loss p))
              mp.
Proof.
  intros Hlead Hm Hl. exists (penetration_array p).
  split; [now apply market_penetration_ok|].
  apply Forall_forall. intros x Hx.
  destruct (In_nth _ _ 0 Hx) as (i & _ & <-). split.
  - now apply penetration_array_nonneg.
  - apply penetration_array_le; [exact Hm | apply Rmax_l | apply Rmax_r].
Qed.

Lemma market_penetration_bounded_witness :
  exists mp,
    market_penetration default_params = Ok mp
    /\ Forall (fun x => 0 <= x <= Rmax 0.5 0.05) mp.
Proof.
  apply (market_penetration_bounded default_params); cbn; try lia; lra.
Defined.

(** ** Net income, year by year *)

Lemma table_nth (f : nat -> R) n i :
  (i < n)%nat -> nth i (map f (seq 0 n)) 0 = f i.
Proof.
  intros Hi. rewrite (nth_indep _ 0 (f 0%nat))
    by now rewrite length_map, length_seq.
  rewrite map_nth, seq_nth by assumption. reflexivity.
Qed.

(** X6.  For consistent lengths, every year before approval
    ([i < lead_time_years]) has no revenue, and its net income is exactly
    minus that year's non-revenue cost. *)
Theorem pre_approval_years_are_pure_cost p :
  (0 <= lead_time_years p)%Z ->
  (0 <= patent_exclusive_years p)%Z ->
  (lead_time_years p + patent_exclusive_years p + 5 = n_years p)%Z ->
  n_years p = 30%Z ->
  exists rev nrc ni,
    revenue p = Ok rev /\ nr_costs p = Ok nrc /\ net_income p = Ok ni
    /\ forall i, (i < Z.to_nat (lead_time_years p))%nat ->
         nth i rev 0 = 0 /\ nth i ni 0 = - nth i nrc 0.
Proof.
  intros H1 H2 H3 H4.
  pose proof (consistent_intro p H1 H2 H3 H4) as Hc.
  do 3 eexists. split; [apply revenue_closed, Hc|].
  split; [apply nr_costs_ok|]. split; [apply net_income_closed, Hc|].
  intros i Hi. rewrite !table_nth by lia.
  unfold net_income_at, n_patients_at.
  rewrite penetration_array_pre by assumption. split; ring.
Qed.

Lemma pre_approval_years_are_pure_cost_witness :
  exists rev nrc ni,
    revenue default_params = Ok rev /\ nr_costs default_params = Ok nrc
    /\ net_income default_params = Ok ni
    /\ nth 5 rev 0 = 0 /\ nth 5 ni 0 = - nth 5 nrc 0.
Proof.
  destruct (pre_approval_years_are_pure_cost default_params)
    as (rev & nrc & ni & Hrev & Hnrc & Hni & H); try (cbn; lia).
  exists rev, nrc, ni. repeat split; auto; apply (H 5%nat); cbn; lia.
Defined.

(** X7.  For consistent lengths, from year 6 on there is no non-revenue
    cost: the net income of year [i >= 6] is the revenue of that year times
    [1 - cost_of_revenue]. *)
Theorem late_years_keep_the_margin p :
  (0 <= lead_time_years p)%Z ->
  (0 <= patent_exclusive_years p)%Z ->
  (lead_time_years p + patent_exclusive_years p + 5 = n_years p)%Z ->
  n_years p = 30%Z ->
  exists rev ni,
    revenue p = Ok rev /\ net_income p = Ok ni
    /\ forall i, (6 <= i < 30)%nat ->
         nth i ni 0 = (1 - cost_of_revenue p) * nth i rev 0.
Proof.
  intros H1 H2 H3 H4.
  pose proof (consistent_intro p H1 H2 H3 H4) as Hc.
  do 2 eexists. split; [apply revenue_closed, Hc|].
  split; [apply net_income_closed, Hc|].
  intros i Hi. rewrite !table_nth by lia.
  rewrite net_income_at_split, nr_cost_at_late by lia. ring.
Qed.

Lemma late_years_keep_the_margin_witness :
  exists rev ni,
    revenue default_params = Ok rev /\ net_income default_params = Ok ni
    /\ nth 8 ni 0 = (1 - 0.49) * nth 8 rev 0.
Proof.
  destruct (late_years_keep_the_margin default_params)
    as (rev & ni & Hrev & Hni & H); try (cbn; lia).
  exists rev, ni. repeat split; auto. apply (H 8%nat). lia.
Defined.

(** ** The value as margin on revenue minus costs *)

Lemma pv_scale d a f n :
  pv d (fun i => a * f i) n = a * pv d f n.
Proof.
  unfold pv. generalize (seq 0 n). intros l.
  induction l as [|i l IH]; [unfold dsum; cbn; ring|].
  rewrite !dsum_cons, IH. unfold Rdiv. ring.
Qed.

(** X8.  For consistent lengths and [discount_rate <> -1], the value
    returned is the present value of the revenue array times
    [1 - cost_of_revenue], minus the present value of the non-revenue cost
    array. *)
Theorem npv_is_margin_minus_costs p :
  (0 <= lead_time_years p)%Z ->
  (0 <= patent_exclusive_years p)%Z ->
  (lead_time_years p + patent_exclusive_years p + 5 = n_years p)%Z ->
  n_years p = 30%Z ->
  discount_rate p <> -1 ->
  exists rev nrc,
    revenue p = Ok rev /\ nr_costs p = Ok nrc
    /\ get_npv p
       = Ok (Finite
               ((1 - cost_of_revenue p)
                * pv (discount_rate p) (fun i => nth i rev 0) 30
                - pv (discount_rate p) (fun i => nth i nrc 0) 30)).
Proof.
  intros H1 H2 H3 H4 Hd.
  pose proof (consistent_intro p H1 H2 H3 H4) as Hc.
  do 2 eexists. split; [apply revenue_closed, Hc|].
  split; [apply nr_costs_ok|].
  rewrite get_npv_split by assumption. do 2 f_equal.
  assert (E : pv (discount_rate p)
                 (fun i => nth i (map (fun i0 => n_patients_at p i0
                                                 * cost_per_unit p)
                                      (seq 0 30)) 0) 30
              = pv (discount_rate p)
                   (fun i => cost_per_unit p * n_patients_at p i) 30).
  { apply dsum_ext. intros i Hi. apply in_seq in Hi.
    rewrite table_nth by lia. ring. }
  rewrite E, pv_scale. unfold nr_cost_at. ring.
Qed.

Lemma npv_is_margin_minus_costs_witness :
  exists rev nrc,
    revenue default_params = Ok rev /\ nr_costs default_params = Ok nrc
    /\ get_npv default_params
       = Ok (Finite ((1 - 0.49) * pv 0.35 (fun i => nth i rev 0) 30
                     - pv 0.35 (fun i => nth i nrc 0) 30)).
Proof.
  apply (npv_is_margin_minus_costs default_params);
    try (cbn; lia). cbn. lra.
Defined.

(** ** SG&A enters six times *)

Lemma pv_sga_part d s n :
  pv d (fun i => if (i <? 6)%nat then s else 0) n
  = s * pv d development_year n.
Proof.
  rewrite <- pv_scale. apply dsum_ext. intros i _.
  unfold development_year. destruct (i <? 6)%nat; ring.
Qed.

(** X9.  For consistent lengths and [discount_rate <> -1], raising
    [clindev_sga] by [delta] lowers the value returned by [get_npv] by
    [delta] times the present value of one unit paid in each of the six
    development years, whatever the other parameters are. *)
Theorem sga_is_paid_in_six_years p delta :
  (0 <= lead_time_years p)%Z ->
  (0 <= patent_exclusive_years p)%Z ->
  (lead_time_years p + patent_exclusive_years p + 5 = n_years p)%Z ->
  n_years p = 30%Z ->
  discount_rate p <> -1 ->
  exists v1 v2,
    get_npv p = Ok (Finite v1)
    /\ get_npv (with_dev_costs (rd_cost_scaler p) (clindev_sga p + delta) p)
       = Ok (Finite v2)
    /\ v1 - v2 = delta * pv (discount_rate p) development_year 30.
Proof.
  intros H1 H2 H3 H4 Hd.
  pose proof (consistent_intro p H1 H2 H3 H4) as Hc.
  set (p' := with_dev_costs (rd_cost_scaler p) (clindev_sga p + delta) p).
  do 2 eexists. split; [|split].
  - now apply get_npv_split.
  - apply get_npv_split; [apply consistent_intro; assumption | exact Hd].
  - change (discount_rate p') with (discount_rate p).
    change (n_patients_at p') with (n_patients_at p).
    change (cost_per_unit p') with (cost_per_unit p).
    change (cost_of_revenue p') with (cost_of_revenue p).
    rewrite (pv_nr_cost_sga p), (pv_nr_cost_sga p').
    change (rd_cost_at p') with (rd_cost_at p).
    change (clindev_sga p') with (clindev_sga p + delta).
    rewrite !pv_sga_part. ring.
Qed.

Lemma sga_is_paid_in_six_years_witness :
  exists v1 v2,
    get_npv default_params = Ok (Finite v1)
    /\ get_npv (with_dev_costs 1 (0.5 + 2) default_params) = Ok (Finite v2)
    /\ v1 - v2 = 2 * pv 0.35 development_year 30.
Proof.
  apply (sga_is_paid_in_six_years default_params 2); try (cbn; lia).
  cbn. lra.
Defined.

(** ** No discounting *)

(** X10.  For consistent lengths, at [discount_rate = 0] the value returned
    is the plain sum of the 30 net incomes. *)
Theorem undiscounted_npv_is_total_net_income p :
  (0 <= lead_time_years p)%Z ->
  (0 <= patent_exclusive_years p)%Z ->
  (lead_time_years p + patent_exclusive_years p + 5 = n_years p)%Z ->
  n_years p = 30%Z ->
  discount_rate p = 0 ->
  exists ni, net_income p = Ok ni /\ get_npv p = Ok (Finite (Rsum ni)).
Proof.
  intros H1 H2 H3 H4 Hd.
  pose proof (consistent_intro p H1 H2 H3 H4) as Hc.
  eexists. split; [apply net_income_closed, Hc|].
  rewrite get_npv_finite by (auto; rewrite Hd; lra).
  do 2 f_equal. unfold pv, dsum. f_equal. apply map_ext. intros i.
  rewrite Hd, Rplus_0_r, pow1. field.
Qed.

Lemma undiscounted_npv_is_total_net_income_witness :
  exists ni,
    net_income (with_discount_rate 0 default_params) = Ok ni
    /\ get_npv (with_discount_rate 0 default_params) = Ok (Finite (Rsum ni)).
Proof.
  apply (undiscounted_npv_is_total_net_income
           (with_discount_rate 0 default_params)); try (cbn; lia).
  reflexivity.
Defined.

(** ** The incidence projection *)

(** X11.  For [n_years] of ordinary size (between [-2^63] and a million)
    the incidence array has [max(n_years, 0)] entries, so none for
    [n_years <= 0]; for
    [n_years >= 1] its first entry is [get_flu_rate * us_population]; and
    each later entry is the previous one times
    [1 + us_population_growth_rate]. *)
Theorem incidence_grows_geometrically p :
  ordinary_size (n_years p) ->
  Z.of_nat (length (n_flu p)) = Z.max (n_years p) 0
  /\ ((n_years p <= 0)%Z -> n_flu p = [])
  /\ ((1 <= n_years p)%Z -> nth 0 (n_flu p) 0 = get_flu_rate p * us_population p)
  /\ (forall i, (S i < length (n_flu p))%nat ->
        nth (S i) (n_flu p) 0
        = (1 + us_population_growth_rate p) * nth i (n_flu p) 0).
Proof.
  intros _. pose proof (n_flu_length p) as HL.
  split; [lia|]. split; [|split].
  - intros Hn. apply length_zero_iff_nil. lia.
  - intros Hn. rewrite n_flu_table, table_nth by lia.
    unfold n_flu_at. cbn [pow]. ring.
  - intros i Hi. rewrite HL in Hi. rewrite n_flu_table, !table_nth by lia.
    unfold n_flu_at. cbn [pow]. ring.
Qed.

Lemma incidence_grows_geometrically_witness :
  Z.of_nat (length (n_flu default_params)) = 30%Z
  /\ n_flu (with_n_years (-3) default_params) = []
  /\ nth 29 (n_flu default_params) 0
     = (1 + 0.007) * nth 28 (n_flu default_params) 0.
Proof.
  split; [|split].
  - apply (incidence_grows_geometrically default_params).
    unfold ordinary_size, min_index. cbn. lia.
  - apply (incidence_grows_geometrically (with_n_years (-3) default_params));
      unfold ordinary_size, min_index; cbn; lia.
  - apply (incidence_grows_geometrically default_params).
    + unfold ordinary_size, min_index. cbn. lia.
    + rewrite n_flu_length. cbn. lia.
Defined.

(** ** Monotonicity in the cost of revenue *)

(** X12.  For consistent lengths, [discount_rate <> -1], a positive price
    and a positive discounted number of patients treated: a higher
    [cost_of_revenue], all else fixed, gives a strictly lower value. *)
Theorem npv_decreases_with_cost_of_revenue p c1 c2 :
  (0 <= lead_time_years p)%Z ->
  (0 <= patent_exclusive_years p)%Z ->
  (lead_time_years p + patent_exclusive_years p + 5 = n_years p)%Z ->
  n_years p = 30%Z ->
  discount_rate p <> -1 ->
  0 < cost_per_unit p ->
  0 < pv (discount_rate p) (n_patients_at p) 30 ->
  c1 < c2 ->
  exists v1 v2,
    get_npv (with_cost_of_revenue c1 p) = Ok (Finite v1)
    /\ get_npv (with_cost_of_revenue c2 p) = Ok (Finite v2)
    /\ v2 < v1.
Proof.
  intros H1 H2 H3 H4 Hd Hp Hpv Hlt.
  do 2 eexists. split; [|split].
  - apply get_npv_split; [apply consistent_intro; assumption | exact Hd].
  - apply get_npv_split; [apply consistent_intro; assumption | exact Hd].
  - change (pv (discount_rate (with_cost_of_revenue c1 p))
               (n_patients_at (with_cost_of_revenue c1 p)) 30)
      with (pv (discount_rate p) (n_patients_at p) 30).
    change (pv (discount_rate (with_cost_of_revenue c2 p))
               (n_patients_at (with_cost_of_revenue c2 p)) 30)
      with (pv (discount_rate p) (n_patients_at p) 30).
    change (pv (discount_rate (with_cost_of_revenue c1 p))
               (nr_cost_at (with_cost_of_revenue c1 p)) 30)
      with (pv (discount_rate p) (nr_cost_at p) 30).
    change (pv (discount_rate (with_cost_of_revenue c2 p))
               (nr_cost_at (with_cost_of_revenue c2 p)) 30)
      with (pv (discount_rate p) (nr_cost_at p) 30).
    cbn [cost_per_unit cost_of_revenue with_cost_of_revenue].
    assert (0 < cost_per_unit p * pv (discount_rate p) (n_patients_at p) 30)
      by (apply Rmult_lt_0_compat; assumption).
    nra.
Qed.

Lemma npv_decreases_with_cost_of_revenue_witness :
  exists v1 v2,
    get_npv (with_cost_of_revenue 0.3 default_params) = Ok (Finite v1)
    /\ get_npv (with_cost_of_revenue 0.49 default_params) = Ok (Finite v2)
    /\ v2 < v1.
Proof.
  apply (npv_decreases_with_cost_of_revenue default_params 0.3 0.49);
    try (cbn; lia); try (cbn; lra).
  apply patients_pv_pos; try (cbn; lia); cbn; lra.
Defined.

(** ** The shape of the logistic segment *)

(** X13.  An entry of the patent-exclusive segment is exactly half of
    [max_penetration] when its index is the inflection year, and also
    whenever [hill_coefficient = 0] (a flat curve). *)
Theorem half_penetration_at_inflection p j :
  (j < Z.to_nat (patent_exclusive_years p))%nat ->
  INR j = inflection_year p \/ hill_coefficient p = 0 ->
  nth j (patent_effective p) 0 = max_penetration p / 2.
Proof.
  intros Hj Hmid. rewrite patent_effective_nth by assumption.
  unfold logistic.
  replace (-1 * hill_coefficient p * (INR j - inflection_year p)) with 0
    by (destruct Hmid as [-> | ->]; ring).
  rewrite exp_0. field.
Qed.

Lemma half_penetration_at_inflection_witness :
  nth 3 (patent_effective
           (mk_params 335.5 0.007 30 0.14 0.5 19 0.05 3 7 6 1 0.5 0.49 45 0.35))
      0
  = 0.5 / 2.
Proof.
  apply (half_penetration_at_inflection
           (mk_params 335.5 0.007 30 0.14 0.5 19 0.05 3 7 6 1 0.5 0.49 45
                      0.35) 3).
  - cbn. lia.
  - left. cbn. lra.
Defined.

(** X14.  The segment is point-symmetric about the inflection year: two
    entries whose indices lie equally far on either side of
    [inflection_year] add up to [max_penetration]. *)
Theorem logistic_segment_symmetric p j k :
  (j < Z.to_nat (patent_exclusive_years p))%nat ->
  (k < Z.to_nat (patent_exclusive_years p))%nat ->
  INR j + INR k = 2 * inflection_year p ->
  nth j (patent_effective p) 0 + nth k (patent_effective p) 0
  = max_penetration p.
Proof.
  intros Hj Hk Hsym. rewrite !patent_effective_nth by assumption.
  unfold logistic.
  set (x := -1 * hill_coefficient p * (INR j - inflection_year p)).
  replace (-1 * hill_coefficient p * (INR k - inflection_year p))
    with (- x) by (unfold x; nra).
  pose proof (exp_pos x) as Hx.
  rewrite exp_Ropp. field; lra.
Qed.

Lemma logistic_segment_symmetric_witness :
  nth 1 (patent_effective default_params) 0
  + nth 2 (patent_effective default_params) 0
  = 0.5.
Proof.
  apply (logistic_segment_symmetric default_params 1 2); cbn; try lia. lra.
Defined.

(** ** The post-patent years *)

(** X15.  For non-negative [lead_time_years] the penetration array has
    [lead_time_years + max(patent_exclusive_years, 0) + 5] entries, whatever
    [n_years] is, and its last five entries all equal
    [penetration_upon_patent_loss]. *)
Theorem last_five_years_are_post_patent p :
  (0 <= lead_time_years p)%Z ->
  exists mp,
    market_penetration p = Ok mp
    /\ Z.of_nat (length mp)
       = (lead_time_years p + Z.max (patent_exclusive_years p) 0 + 5)%Z
    /\ forall k, (k < 5)%nat ->
         nth (length mp - 5 + k) mp 0 = penetration_upon_patent_loss p.
Proof.
  intros Hlead. exists (penetration_array p).
  pose proof (penetration_array_length p) as HL.
  split; [now apply market_penetration_ok|]. split; [lia|].
  intros k Hk. rewrite <- (penetration_array_post p k Hk).
  f_equal. lia.
Qed.

Lemma last_five_years_are_post_patent_witness :
  exists mp,
    market_penetration default_params = Ok mp
    /\ Z.of_nat (length mp) = 30%Z
    /\ forall k, (k < 5)%nat -> nth (length mp - 5 + k) mp 0 = 0.05.
Proof.
  apply (last_five_years_are_post_patent default_params). cbn. lia.
Defined.
